(** * File content extractor: extraction and packaging pipeline

    A shallow embedding of [python-script.py] (class [FileExtractor] and
    [main]) together with the properties of its extraction-and-packaging
    pipeline.

    Modelling conventions.
    - A Python [str] is a [string] holding its UTF-8 encoding, a [bytes]
      value a [string] of its bytes. White space is the Unicode one, read
      off the encoding. Case conversion and [repr] are the ASCII ones:
      what depends on them for other characters is stated for ASCII
      strings only (every key of the dispatch table is ASCII).
    - A path is the list of its components below the working directory,
      joined as [pathlib] joins them. The file system looks a path up
      component by component and does not resolve [..]: what depends on
      the place of a path is stated for paths without such a component.
      Links, permissions and I/O failures other than the structural ones
      (missing entry, file where a directory is needed and conversely) are
      outside the model.
    - The file system is a finite map from paths to nodes; the working
      directory itself (the empty path) is always a directory. No shape is
      imposed on the map: what is proved holds of every world.
    - Effects are threaded through a state-and-exception monad over the
      [world]: the file system and the lines printed so far.
    - The third-party readers (PDF, DOCX, PPTX, OCR, text decoding), the
      random generator, and what the operating system keeps outside the
      map (modification times, the order of a directory listing) are
      opaque: their answers are the fields of [Libs]. *)

From Stdlib Require Import ZArith Lia Ascii DecimalString.
From Stdlib Require DecimalNat.
From stdpp Require Import gmap strings list fin_maps sorting.

Local Open Scope Z_scope.

(** ** Python strings *)

Module Str.

Definition len (s : string) : Z := Z.of_nat (String.length s).

Fixpoint drop (n : nat) (s : string) : string :=
  match n, s with
  | O, _ => s
  | S n', String _ r => drop n' r
  | S _, EmptyString => EmptyString
  end.

Fixpoint take (n : nat) (s : string) : string :=
  match n, s with
  | O, _ => EmptyString
  | S n', String c r => String c (take n' r)
  | S _, EmptyString => EmptyString
  end.

(** [s.rfind(c)]: the highest index of [c] in [s], or [-1]. *)
Fixpoint rfind (c : ascii) (s : string) : Z :=
  match s with
  | EmptyString => -1
  | String a r =>
      let i := rfind c r in
      if 0 <=? i then i + 1
      else if Ascii.eqb a c then 0 else -1
  end.

Definition lower_ascii (c : ascii) : ascii :=
  let n := nat_of_ascii c in
  if ((65 <=? n) && (n <=? 90))%nat then ascii_of_nat (n + 32) else c.

(** [s.lower()] for a string of ASCII characters; other bytes are kept. *)
Fixpoint lower (s : string) : string :=
  match s with
  | EmptyString => EmptyString
  | String c r => String (lower_ascii c) (lower r)
  end.

Fixpoint to_list (s : string) : list ascii :=
  match s with
  | EmptyString => []
  | String c r => c :: to_list r
  end.

Fixpoint of_list (l : list ascii) : string :=
  match l with
  | [] => EmptyString
  | c :: r => String c (of_list r)
  end.

(** [s.isascii()] *)
Definition is_ascii (s : string) : bool :=
  forallb (fun c => nat_of_ascii c <? 128)%nat (to_list s).

(** The characters [c] with [c.isspace()], by their UTF-8 encodings.
    One byte: U+0009 to U+000D, U+001C to U+0020. *)
Definition space1 (a : ascii) : bool :=
  let n := nat_of_ascii a in
  (((9 <=? n) && (n <=? 13)) || ((28 <=? n) && (n <=? 32)))%nat.

(** Two bytes: U+0085 and U+00A0. *)
Definition space2 (a b : ascii) : bool :=
  let '(m, n) := (nat_of_ascii a, nat_of_ascii b) in
  ((m =? 194) && ((n =? 133) || (n =? 160)))%nat.

(** Three bytes: U+1680, U+2000 to U+200A, U+2028, U+2029, U+202F,
    U+205F and U+3000. *)
Definition space3 (a b c : ascii) : bool :=
  let '(m, n, k) := (nat_of_ascii a, nat_of_ascii b, nat_of_ascii c) in
  (((m =? 225) && (n =? 154) && (k =? 128)) ||
   ((m =? 226) && (n =? 128) &&
    (((128 <=? k) && (k <=? 138)) || (k =? 168) || (k =? 169) || (k =? 175))) ||
   ((m =? 226) && (n =? 129) && (k =? 159)) ||
   ((m =? 227) && (n =? 128) && (k =? 128)))%nat.

(** [s.lstrip()]: leading white space goes, character by character. *)
Fixpoint lstrip (s : string) : string :=
  match s with
  | EmptyString => EmptyString
  | String a r1 =>
      if space1 a then lstrip r1
      else
        match r1 with
        | EmptyString => s
        | String b r2 =>
            if space2 a b then lstrip r2
            else
              match r2 with
              | EmptyString => s
              | String c r3 => if space3 a b c then lstrip r3 else s
              end
        end
  end.

(** The same from the other end, on the bytes in reverse order. *)
Fixpoint rstrip_rev (l : list ascii) : list ascii :=
  match l with
  | [] => []
  | a :: r1 =>
      if space1 a then rstrip_rev r1
      else
        match r1 with
        | [] => l
        | b :: r2 =>
            if space2 b a then rstrip_rev r2
            else
              match r2 with
              | [] => l
              | c :: r3 => if space3 c b a then rstrip_rev r3 else l
              end
        end
  end.

(** [s.rstrip()] *)
Definition rstrip (s : string) : string :=
  of_list (rev (rstrip_rev (rev (to_list s)))).

(** [s.strip()] *)
Definition strip (s : string) : string := rstrip (lstrip s).

(** Truth value of a string: non-empty. *)
Definition truthy (s : string) : bool :=
  match s with EmptyString => false | _ => true end.

Fixpoint startswith (p s : string) : bool :=
  match p, s with
  | EmptyString, _ => true
  | String a p', String b s' => Ascii.eqb a b && startswith p' s'
  | String _ _, EmptyString => false
  end.

(** [p in s] *)
Fixpoint contains (p s : string) : bool :=
  startswith p s ||
  match s with
  | EmptyString => false
  | String _ r => contains p r
  end.

(** [str(n)] for a non-negative integer. *)
Definition of_nat (n : nat) : string := NilZero.string_of_uint (Nat.to_uint n).

(** [f"{n:03d}"]: decimal, padded with zeros to width 3. *)
Definition pad3 (n : nat) : string :=
  let s := of_nat n in
  match String.length s with
  | 1%nat => "00" +:+ s
  | 2%nat => "0" +:+ s
  | _ => s
  end.

(** [''.join(l)] *)
Definition join (l : list string) : string := String.concat EmptyString l.

(** [s[i]] for an index within the string. *)
Definition nth (i : nat) (s : string) : ascii :=
  match String.get i s with
  | Some c => c
  | None => "000"%char
  end.

Definition quote : ascii := "'".
Definition dquote : ascii := ascii_of_nat 34.
Definition backslash : ascii := "\".

Definition hex_digit (n : nat) : ascii := nth n "0123456789abcdef".

(** One character of [repr(s)] inside the quotes [q]: the backslash and
    the quote are escaped, tab, line feed and carriage return get their
    letter, the other control characters their code in hexadecimal. *)
Definition repr_char (q c : ascii) : string :=
  let n := nat_of_ascii c in
  if (n =? 92)%nat then String backslash (String backslash EmptyString)
  else if Ascii.eqb c q then String backslash (String c EmptyString)
  else if (n =? 9)%nat then String backslash "t"
  else if (n =? 10)%nat then String backslash "n"
  else if (n =? 13)%nat then String backslash "r"
  else if ((n <? 32) || (n =? 127))%nat
       then String backslash
              (String "x" (String (hex_digit (n / 16)) (String (hex_digit (n mod 16)) EmptyString)))
       else String c EmptyString.

(** [repr(s)] for a string of ASCII characters: between single quotes,
    or between double quotes when [s] holds a single quote and no double
    one. Other bytes are kept. *)
Definition repr (s : string) : string :=
  let q := if existsb (Ascii.eqb quote) (to_list s) &&
              negb (existsb (Ascii.eqb dquote) (to_list s))
           then dquote else quote in
  String q (String.concat EmptyString (map (repr_char q) (to_list s)) +:+ String q EmptyString).

End Str.

(** [string.ascii_letters + string.digits + string.punctuation] *)
Definition ascii_lowercase : string := "abcdefghijklmnopqrstuvwxyz".
Definition ascii_uppercase : string := "ABCDEFGHIJKLMNOPQRSTUVWXYZ".
Definition ascii_letters : string := ascii_lowercase +:+ ascii_uppercase.
Definition digits : string := "0123456789".
Definition punctuation : string :=
  "!" +:+ String (ascii_of_nat 34) "#$%&'()*+,-./:;<=>?@[\]^_`{|}~".

(** ** Paths (pathlib) *)

Abbreviation path := (list string).

Module Path.

(** [p.name]: the final component, empty for the working directory. *)
Definition name (p : path) : string := List.last p EmptyString.

(** [p.parent] *)
Definition parent (p : path) : path := List.removelast p.

(** [p.suffix] *)
Definition suffix (p : path) : string :=
  let name := name p in
  let i := Str.rfind "."%char name in
  if (0 <? i) && (i <? Str.len name - 1) then Str.drop (Z.to_nat i) name
  else EmptyString.

(** [p.stem] *)
Definition stem (p : path) : string :=
  let name := name p in
  let i := Str.rfind "."%char name in
  if (0 <? i) && (i <? Str.len name - 1) then Str.take (Z.to_nat i) name
  else name.

(** A component that [pathlib] drops when it joins: the empty one and the
    single dot. *)
Definition is_dot (name : string) : bool :=
  match name with
  | EmptyString => true
  | String c EmptyString => Ascii.eqb c "."
  | String _ (String _ _) => false
  end.

(** [p / name] for a single component: [..] is kept as it is. *)
Definition join (p : path) (name : string) : path :=
  if is_dot name then p else p ++ [name].

(** [str(p)] *)
Definition str (p : path) : string :=
  match p with
  | [] => "."
  | _ => String.concat "/" p
  end.

(** [f"{p}{s}"] read back as a path: [s] is appended to the final
    component, so the result is a sibling of [p]. *)
Definition add_suffix (p : path) (s : string) : path :=
  match p with
  | [] => ["." +:+ s]
  | _ => parent p ++ [name p +:+ s]
  end.

(** [os.path.basename(p)] *)
Definition basename (p : path) : string :=
  match p with
  | [] => "."
  | _ => name p
  end.

(** [os.path.relpath(p, start)] for [p] below [start]. *)
Definition relpath (p start : path) : path := List.skipn (length start) p.

End Path.

Infix "//" := Path.join (at level 40, left associativity).

(** ** Exceptions *)

Inductive exn_class :=
| FileNotFoundError
| FileExistsError
| NotADirectoryError
| IsADirectoryError
| SameFileError
| BadZipFile
| RuntimeError
| ValueError
| NotImplementedError
| OSError               (* the class itself, for an error number without a class of its own *)
| StructError           (* [struct.error] *)
| LibraryError          (* any exception raised inside a third-party reader *)
| Exception.            (* the base class itself, as raised by [extract_content] *)

(** An exception object: its class and [str(e)]. Every class above derives
    from [Exception], so [except Exception] catches all of them. *)
Record exn := mk_exn { exn_cls : exn_class; exn_msg : string }.

Inductive result (A : Type) :=
| Ok (a : A)
| Raise (e : exn).
Arguments Ok {A} a.
Arguments Raise {A} e.

(** [OSError] text: [[Errno n] text: ] and the [repr] of the file name. *)
Definition os_error (c : exn_class) (errno text : string) (p : path) : exn :=
  mk_exn c ("[Errno " +:+ errno +:+ "] " +:+ text +:+ ": " +:+ Str.repr (Path.str p)).

Definition ENOENT p := os_error FileNotFoundError "2" "No such file or directory" p.
Definition EEXIST p := os_error FileExistsError "17" "File exists" p.
Definition ENOTDIR p := os_error NotADirectoryError "20" "Not a directory" p.
Definition EISDIR p := os_error IsADirectoryError "21" "Is a directory" p.
Definition EINVAL p := os_error OSError "22" "Invalid argument" p.

(** [repr(p)] for a [pathlib] path. *)
Definition repr_Path (p : path) : string :=
  "PosixPath(" +:+ Str.repr (Path.str p) +:+ ")".

(** ** Archives and the file system *)

(** A value passed where the archive writer expects a compression method:
    an integer constant, or some other object. *)
Inductive pyval :=
| PyInt (n : Z)
| PyZipInfo (filename : string).

Definition ZIP_STORED : Z := 0.
Definition ZIP_DEFLATED : Z := 8.
Definition ZIP_BZIP2 : Z := 12.
Definition ZIP_LZMA : Z := 14.

(** [zipfile.ZipInfo]: the member name, its compression method and the
    general purpose flags (bit 0 set: the member is encrypted). *)
Record ZipInfo := mk_ZipInfo {
  filename : string;
  compress_type : pyval;
  flag_bits : Z
}.

(** What a file holds: plain bytes, or an archive as the list of its
    members in the order they were written. *)
Inductive content :=
| Bytes (data : string)
| Archive (members : list member)
with member :=
| Member (info : ZipInfo) (data : content).

Definition member_info (m : member) : ZipInfo := let 'Member i _ := m in i.
Definition member_data (m : member) : content := let 'Member _ d := m in d.

Inductive node :=
| File (c : content)
| Dir.

Record world := mk_world {
  fs : gmap path node;
  stdout : list string
}.

Definition set_fs (f : gmap path node → gmap path node) (w : world) : world :=
  mk_world (f (fs w)) (stdout w).

(** The entry at [p]; the working directory always exists. *)
Definition stat (w : world) (p : path) : option node :=
  match p with
  | [] => Some Dir
  | _ => fs w !! p
  end.

(** ** The state-and-exception monad *)

Definition M (A : Type) : Type := world → result A * world.

Definition ret {A} (a : A) : M A := fun w => (Ok a, w).
Definition raise {A} (e : exn) : M A := fun w => (Raise e, w).

Definition bind {A B} (m : M A) (k : A → M B) : M B :=
  fun w =>
    match m w with
    | (Ok a, w') => k a w'
    | (Raise e, w') => (Raise e, w')
    end.

(** [try: m except Exception as e: h e] *)
Definition try_except {A} (m : M A) (h : exn → M A) : M A :=
  fun w =>
    match m w with
    | (Ok a, w') => (Ok a, w')
    | (Raise e, w') => h e w'
    end.

Definition lift {A} (r : result A) : M A := fun w => (r, w).

Notation "'let*' x := m 'in' k" := (bind m (fun x => k))
  (at level 10, x name, m at level 100, k at level 200).
Notation "m ;; k" := (bind m (fun _ => k))
  (at level 100, k at level 200, right associativity).

(** [for x in l: body x] *)
Fixpoint for_each {A} (l : list A) (body : A → M unit) : M unit :=
  match l with
  | [] => ret tt
  | x :: r => body x ;; for_each r body
  end.

(** [enumerate(l, start)] *)
Fixpoint enumerate {A} (start : nat) (l : list A) : list (nat * A) :=
  match l with
  | [] => []
  | x :: r => (start, x) :: enumerate (S start) r
  end.

Definition print (line : string) : M unit :=
  fun w => (Ok tt, mk_world (fs w) (stdout w ++ [line])).

(** ** File-system operations *)

(** Is the parent of [p] a directory? Answers with the exception the
    operating system gives otherwise. *)
Definition check_parent (p : path) (w : world) : option exn :=
  match stat w (Path.parent p) with
  | Some Dir => None
  | Some (File _) => Some (ENOTDIR p)
  | None => Some (ENOENT p)
  end.

(** [p.exists()] *)
Definition exists_ (p : path) : M bool :=
  fun w => (Ok (bool_decide (is_Some (stat w p))), w).

(** [os.mkdir(p)] *)
Definition os_mkdir (p : path) : M unit :=
  fun w =>
    match stat w p with
    | Some _ => (Raise (EEXIST p), w)
    | None =>
        match check_parent p w with
        | Some e => (Raise e, w)
        | None => (Ok tt, set_fs <[p := Dir]> w)
        end
    end.

(** [p.is_dir()] *)
Definition is_dir (p : path) (w : world) : bool :=
  match stat w p with
  | Some Dir => true
  | _ => false
  end.

(** [Path.mkdir(parents, exist_ok)], as pathlib writes it: try [os.mkdir],
    on a missing parent create the parent first, and forgive an existing
    directory when [exist_ok]. The recursion is on the parent, so the fuel
    is the number of components. *)
Fixpoint mkdir_fuel (fuel : nat) (p : path) (parents exist_ok : bool) : M unit :=
  fun w =>
    match os_mkdir p w with
    | (Ok u, w') => (Ok u, w')
    | (Raise e, w') =>
        match exn_cls e with
        | FileNotFoundError =>
            match fuel with
            | O => (Raise e, w')
            | S fuel' =>
                if negb parents || bool_decide (Path.parent p = p)
                then (Raise e, w')
                else (mkdir_fuel fuel' (Path.parent p) true true ;;
                      mkdir_fuel fuel' p false exist_ok) w'
            end
        | _ =>
            if negb exist_ok || negb (is_dir p w') then (Raise e, w')
            else (Ok tt, w')
        end
    end.

Definition mkdir (p : path) (parents exist_ok : bool) : M unit :=
  mkdir_fuel (length p) p parents exist_ok.

(** [open(p, 'rb').read()] *)
Definition read_file (p : path) : M content :=
  fun w =>
    match stat w p with
    | Some (File c) => (Ok c, w)
    | Some Dir => (Raise (EISDIR p), w)
    | None => (Raise (ENOENT p), w)
    end.

(** [open(p, 'wb').write(c)]: creates or replaces the file. *)
Definition write_file (p : path) (c : content) : M unit :=
  fun w =>
    match stat w p with
    | Some Dir => (Raise (EISDIR p), w)
    | Some (File _) => (Ok tt, set_fs <[p := File c]> w)
    | None =>
        match check_parent p w with
        | Some e => (Raise e, w)
        | None => (Ok tt, set_fs <[p := File c]> w)
        end
    end.

(** [os.remove(p)] *)
Definition os_remove (p : path) : M unit :=
  fun w =>
    match stat w p with
    | Some (File _) => (Ok tt, set_fs (delete p) w)
    | Some Dir => (Raise (EISDIR p), w)
    | None => (Raise (ENOENT p), w)
    end.

(** [OSError] text of a call on two names. *)
Definition os_error2 (c : exn_class) (errno text : string) (src dst : path) : exn :=
  mk_exn c ("[Errno " +:+ errno +:+ "] " +:+ text +:+ ": " +:+ Str.repr (Path.str src) +:+
            " -> " +:+ Str.repr (Path.str dst)).

(** [os.rename(src, dst)] for a file [src]: replaces a file at [dst]. *)
Definition os_rename (src dst : path) : M unit :=
  fun w =>
    match stat w src with
    | Some (File c) =>
        match stat w dst with
        | Some Dir =>
            (Raise (os_error2 IsADirectoryError "21" "Is a directory" src dst), w)
        | Some (File _) => (Ok tt, set_fs (fun m => <[dst := File c]> (delete src m)) w)
        | None =>
            match stat w (Path.parent dst) with
            | Some Dir => (Ok tt, set_fs (fun m => <[dst := File c]> (delete src m)) w)
            | Some (File _) =>
                (Raise (os_error2 NotADirectoryError "20" "Not a directory" src dst), w)
            | None =>
                (Raise (os_error2 FileNotFoundError "2" "No such file or directory" src dst), w)
            end
        end
    | Some Dir => (Raise (EISDIR src), w)
    | None =>
        (Raise (os_error2 FileNotFoundError "2" "No such file or directory" src dst), w)
    end.

(** [shutil.rmtree(p)] for a [pathlib] path: removes everything below the
    directory [p], then the directory itself. The working directory cannot
    be removed: the call fails there, once it has been emptied. *)
Definition rmtree (p : path) : M unit :=
  fun w =>
    match stat w p with
    | Some Dir =>
        let w' := set_fs (filter (fun kv => ¬ p `prefix_of` kv.1)) w in
        match p with
        | [] => (Raise (EINVAL p), w')
        | _ :: _ => (Ok tt, w')
        end
    | Some (File _) =>
        (Raise (mk_exn NotADirectoryError
                  ("[Errno 20] Not a directory: " +:+ repr_Path p)), w)
    | None => (Raise (ENOENT p), w)
    end.

(** [shutil.copy2(src, dst)] for two [pathlib] paths: into [dst] when it
    is a directory, the target being then a string and no longer a path;
    source and target may not be one existing entry. *)
Definition copy2 (src dst : path) : M unit :=
  fun w =>
    let into := is_dir dst w in
    let target := if into then dst // Path.basename src else dst in
    let shown :=
      if into then Str.repr (Path.str dst +:+ "/" +:+ Path.basename src)
      else repr_Path dst in
    if bool_decide (src = target) && bool_decide (is_Some (stat w src)) then
      (Raise (mk_exn SameFileError
                (repr_Path src +:+ " and " +:+ shown +:+ " are the same file")), w)
    else (let* c := read_file src in write_file target c) w.

(** ** The archive library (zipfile)

    The part of Python's standard [zipfile] module that [encrypt_folder]
    calls, after the library's own code: writing never encrypts, and a
    member is accepted only under one of the four compression methods. *)

Module Zipfile.

(** [_check_compression]: only the four method constants pass. *)
Definition _check_compression (compression : pyval) : result unit :=
  match compression with
  | PyInt n =>
      if (n =? ZIP_STORED) || (n =? ZIP_DEFLATED) || (n =? ZIP_BZIP2) || (n =? ZIP_LZMA)
      then Ok tt
      else Raise (mk_exn NotImplementedError "That compression method is not supported")
  | PyZipInfo _ =>
      Raise (mk_exn NotImplementedError "That compression method is not supported")
  end.

Definition is_encrypted (zinfo : ZipInfo) : bool := Z.testbit (flag_bits zinfo) 0.

(** The flags a member is stored with: bit 11 says that its name is
    written in UTF-8, and is set when the name is not ASCII. *)
Definition name_flags (filename : string) : Z :=
  if Str.is_ascii filename then 0 else 2048.

(** A [ZipFile] open for writing: the members written so far. A step of
    the body of the [with] block answers with its outcome and the members
    written up to there. *)
Definition writer (A : Type) : Type := list member → result A * list member.

(** [zipf.write(file_path, arcname)] with the bytes of the file at hand
    and the year of its modification time: a fresh member under the
    archive's own compression method. The date must fit the format: a year
    before 1980 is refused when the member is made, one after 2107 when
    its header is written, once the method has been checked. *)
Definition write (compression : Z) (year : Z) (arcname : string) (data : content)
  : writer unit :=
  fun members =>
    if year <? 1980 then
      (Raise (mk_exn ValueError "ZIP does not support timestamps before 1980"), members)
    else
      let zinfo := mk_ZipInfo arcname (PyInt compression) (name_flags arcname) in
      match _check_compression (compress_type zinfo) with
      | Ok _ =>
          if 2107 <? year then
            (Raise (mk_exn StructError "ushort format requires 0 <= number <= 65535"),
             members)
          else (Ok tt, members ++ [Member zinfo data])
      | Raise e => (Raise e, members)
      end.

(** [zipf.writestr(zinfo, data, compress_type)] for a [ZipInfo] first
    argument. As in the library: a [compress_type] that is given replaces
    the one of [zinfo]; the member is then opened for writing, which
    resets the flags and runs [_check_compression] on the method before
    anything is written; the flags stored are those of the name. *)
Definition writestr (zinfo : ZipInfo) (data : content) (given_type : option pyval)
  : writer unit :=
  fun members =>
    let method := match given_type with
                  | Some c => c
                  | None => compress_type zinfo
                  end in
    let zinfo := mk_ZipInfo (filename zinfo) method (name_flags (filename zinfo)) in
    match _check_compression method with
    | Ok _ => (Ok tt, members ++ [Member zinfo data])
    | Raise e => (Raise e, members)
    end.

Fixpoint writer_for_each {A} (l : list A) (body : A → writer unit) : writer unit :=
  fun members =>
    match l with
    | [] => (Ok tt, members)
    | x :: r =>
        match body x members with
        | (Ok _, members') => writer_for_each r body members'
        | (Raise e, members') => (Raise e, members')
        end
    end.

(** [with zipfile.ZipFile(p, 'w', ...) as zipf: body]: the file is created
    (or emptied) on opening; on leaving the block, normally or not, the
    archive is closed and holds the members written. The body may look at
    the world as it is once the file is open. *)
Definition with_ZipFile_w {A} (p : path) (body : world → writer A) : M A :=
  write_file p (Bytes EmptyString) ;;
  fun w =>
    let '(r, members) := body w [] in
    (write_file p (Archive members) ;; lift r) w.

(** [zipfile.ZipFile(p, 'r')] followed by [infolist()]: the members. *)
Definition ZipFile_r (p : path) : M (list member) :=
  let* c := read_file p in
  match c with
  | Archive members => ret members
  | Bytes _ => raise (mk_exn BadZipFile "File is not a zip file")
  end.

(** [zip_read.read(item, pwd)]: an encrypted member needs the password. *)
Definition read (m : member) (pwd : option string) : result content :=
  if is_encrypted (member_info m) then
    match pwd with
    | None =>
        Raise (mk_exn RuntimeError
                 ("File '" +:+ filename (member_info m) +:+
                  "' is encrypted, password required for extraction"))
    | Some _ => Ok (member_data m)
    end
  else Ok (member_data m).

End Zipfile.

(** ** The opaque collaborators *)

(** A DOCX relationship: [rel.target_ref] and [rel.target_part.blob]. *)
Record docx_rel := mk_rel { target_ref : string; target_blob : result content }.

(** [docx.Document]: paragraph texts and the relationships of the part. *)
Record docx_document := mk_docx { paragraphs : list string; rels : list docx_rel }.

(** A PPTX shape: [shape.text] and [shape.image.blob], each when the shape
    has the attribute. *)
Record pptx_shape := mk_shape { shape_text : option string; shape_image : option content }.

(** What the third-party libraries answer on the bytes of a file, and the
    draws of the random generator. *)
Record Libs := mk_Libs {
  (** [PyPDF2.PdfReader(file).pages], each page through [extract_text()] *)
  pdf_pages_text : content → result (list string);
  (** [pdf2image.convert_from_path]: the pages as saved by [image.save(_, 'PNG')] *)
  convert_from_path : content → result (list content);
  (** [docx.Document(path)] *)
  Document : content → result docx_document;
  (** [pptx.Presentation(path).slides], each slide through [slide.shapes] *)
  Presentation : content → result (list (list pptx_shape));
  (** reading in text mode as UTF-8 with [errors='ignore'] *)
  decode_ignore : content → string;
  (** [pytesseract.image_to_string(Image.open(path))] *)
  image_to_string : content → result string;
  (** the [k]-th number handed out by the random generator *)
  random_draw : nat → nat;
  (** [time.localtime(os.stat(path).st_mtime)[0]]: the year of the
      modification time of the file at [path], as the archive writer
      finds it *)
  st_mtime_year : path → Z;
  (** the place of the entry at [path] in the listing [os.scandir] gives
      of its directory *)
  scandir_rank : path → nat
}.

(** [os.walk(top)], file by file. The walk hands out the files of a
    directory before it goes down into its subdirectories, and the entries
    of one directory in the order of its listing: [walk_before] compares
    two paths below a directory [dir] that way. *)
Fixpoint walk_before (rank : path → nat) (dir r1 r2 : path) : bool :=
  match r1, r2 with
  | [], _ => true
  | _ :: _, [] => false
  | a :: r1', b :: r2' =>
      if bool_decide (a = b) then walk_before rank (dir ++ [a]) r1' r2'
      else
        match r1', r2' with
        | [], _ :: _ => true
        | _ :: _, [] => false
        | _, _ => (rank (dir ++ [a]) <=? rank (dir ++ [b]))%nat
        end
  end.

(** The regular files strictly below [top], with their paths relative to
    it. *)
Definition files_below (top : path) (w : world) : list (path * content) :=
  omap (fun kv : path * node =>
          match kv.2 with
          | File c =>
              if bool_decide (top `prefix_of` kv.1 ∧ kv.1 ≠ top)
              then Some (Path.relpath kv.1 top, c) else None
          | Dir => None
          end)
       (map_to_list (fs w)).

Definition walks_first (rank : path → nat) (top : path) (f1 f2 : path * content) : Prop :=
  walk_before rank top f1.1 f2.1 = true.

#[global] Instance walks_first_dec rank top f1 f2 : Decision (walks_first rank top f1 f2) :=
  bool_eq_dec _ _.

(** What [os.walk(top)] hands out as [files], directory by directory. *)
Definition walk_files (L : Libs) (top : path) (w : world) : list (path * content) :=
  merge_sort (walks_first (scandir_rank L) top) (files_below top w).

Definition nl : string := String (ascii_of_nat 10) EmptyString.

(** Truth value of a list: non-empty. *)
Definition nonempty {A} (l : list A) : bool :=
  match l with [] => false | _ => true end.

(** ** The extractor *)

Section FileExtractor.

Context (L : Libs).

(** [random.choice(seq)]: [seq[randbelow(len(seq))]], at the [k]-th draw. *)
Definition random_choice (k : nat) (seq : string) : ascii :=
  Str.nth (random_draw L k mod String.length seq) seq.

Definition generate_password (length : nat) : string :=
  let characters := ascii_letters +:+ digits +:+ punctuation in
  Str.of_list (map (fun k => random_choice k characters) (seq 0 length)).

Definition encrypt_folder (folder_path : path) (password : string) : M path :=
  let zip_path := Path.add_suffix folder_path ".zip" in
  Zipfile.with_ZipFile_w zip_path (fun w =>
    Zipfile.writer_for_each (walk_files L folder_path w) (fun file =>
      let file_path := folder_path ++ file.1 in
      let arcname := String.concat "/" file.1 in
      Zipfile.write ZIP_DEFLATED (st_mtime_year L file_path) arcname file.2)) ;;
  (* Reopen with password protection *)
  let temp_zip := Path.add_suffix folder_path "_temp.zip" in
  (let* items := Zipfile.ZipFile_r zip_path in
   Zipfile.with_ZipFile_w temp_zip (fun _ =>
     Zipfile.writer_for_each items (fun item => fun members =>
       match Zipfile.read item None with
       | Ok data =>
           Zipfile.writestr (member_info item) data
             (Some (PyZipInfo (filename (member_info item)))) members
       | Raise e => (Raise e, members)
       end))) ;;
  os_remove zip_path ;;
  os_rename temp_zip zip_path ;;
  ret zip_path.

Definition pdf_text_content (pages : list string) : list string :=
  foldl (fun text_content (p : nat * string) =>
           let '(page_num, text) := p in
           if Str.truthy (Str.strip text)
           then text_content ++
                ["--- Page " +:+ Str.of_nat page_num +:+ " ---" +:+ nl +:+ text +:+ nl]
           else text_content)
        [] (enumerate 1 pages).

Definition _extract_pdf (file_path text_folder images_folder : path) : M unit :=
  (* Extract text *)
  (let* file := read_file file_path in
   let* pages := lift (pdf_pages_text L file) in
   let text_content := pdf_text_content pages in
   (* Save text *)
   if nonempty text_content
   then write_file (text_folder // "extracted_text.txt") (Bytes (Str.join text_content))
   else ret tt) ;;
  (* Extract images *)
  try_except
    (let* file := read_file file_path in
     let* images := lift (convert_from_path L file) in
     for_each (enumerate 1 images) (fun p =>
       let image_path := images_folder // ("page_" +:+ Str.pad3 p.1 +:+ ".png") in
       write_file image_path p.2))
    (fun e => print ("Warning: Could not extract images from PDF: " +:+ exn_msg e)).

Definition docx_text_content (paras : list string) : list string :=
  foldl (fun text_content para =>
           if Str.truthy (Str.strip para) then text_content ++ [para +:+ nl]
           else text_content)
        [] paras.

Fixpoint docx_images (images_folder : path) (rels : list docx_rel) (image_count : nat)
  : M unit :=
  match rels with
  | [] => ret tt
  | rel :: rest =>
      if Str.contains "image" (target_ref rel) then
        let image_count := S image_count in
        let* image_data := lift (target_blob rel) in
        let image_path := images_folder // ("image_" +:+ Str.pad3 image_count +:+ ".png") in
        write_file image_path image_data ;;
        docx_images images_folder rest image_count
      else docx_images images_folder rest image_count
  end.

Definition _extract_docx (file_path text_folder images_folder : path) : M unit :=
  let* file := read_file file_path in
  let* doc := lift (Document L file) in
  let text_content := docx_text_content (paragraphs doc) in
  (if nonempty text_content
   then write_file (text_folder // "extracted_text.txt") (Bytes (Str.join text_content))
   else ret tt) ;;
  docx_images images_folder (rels doc) 0.

Definition pptx_text_content (slides : list (list pptx_shape)) : list string :=
  foldl (fun text_content (p : nat * list pptx_shape) =>
           let '(slide_num, shapes) := p in
           let text_content :=
             text_content ++ ["--- Slide " +:+ Str.of_nat slide_num +:+ " ---" +:+ nl] in
           let text_content :=
             foldl (fun text_content shape =>
                      match shape_text shape with
                      | Some text =>
                          if Str.truthy (Str.strip text)
                          then text_content ++ [text +:+ nl] else text_content
                      | None => text_content
                      end)
                   text_content shapes in
           text_content ++ [nl])
        [] (enumerate 1 slides).

Fixpoint pptx_shape_images (images_folder : path) (slide_num : nat)
    (shapes : list pptx_shape) (image_count : nat) : M nat :=
  match shapes with
  | [] => ret image_count
  | shape :: rest =>
      match shape_image shape with
      | Some image_data =>
          let image_count := S image_count in
          let image_path :=
            images_folder // ("slide_" +:+ Str.of_nat slide_num +:+ "_image_" +:+
                              Str.pad3 image_count +:+ ".png") in
          write_file image_path image_data ;;
          pptx_shape_images images_folder slide_num rest image_count
      | None => pptx_shape_images images_folder slide_num rest image_count
      end
  end.

Fixpoint pptx_images (images_folder : path) (slides : list (nat * list pptx_shape))
    (image_count : nat) : M unit :=
  match slides with
  | [] => ret tt
  | (slide_num, shapes) :: rest =>
      let* image_count := pptx_shape_images images_folder slide_num shapes image_count in
      pptx_images images_folder rest image_count
  end.

Definition _extract_pptx (file_path text_folder images_folder : path) : M unit :=
  let* file := read_file file_path in
  let* prs := lift (Presentation L file) in
  let text_content := pptx_text_content prs in
  (if nonempty text_content
   then write_file (text_folder // "extracted_text.txt") (Bytes (Str.join text_content))
   else ret tt) ;;
  pptx_images images_folder (enumerate 1 prs) 0.

Definition _extract_txt (file_path text_folder images_folder : path) : M unit :=
  let* file := read_file file_path in
  let content := decode_ignore L file in
  write_file (text_folder // "extracted_text.txt") (Bytes content).

Definition _extract_image (file_path text_folder images_folder : path) : M unit :=
  (* Copy original image *)
  copy2 file_path (images_folder // Path.name file_path) ;;
  (* Try OCR if available *)
  try_except
    (let* image := read_file file_path in
     let* text := lift (image_to_string L image) in
     if Str.truthy (Str.strip text)
     then write_file (text_folder // "extracted_text.txt") (Bytes text)
     else ret tt)
    (fun e => print ("Warning: OCR failed for " +:+ Path.name file_path +:+ ": " +:+ exn_msg e)).

Definition handler : Type := path → path → path → M unit.

Definition supported_formats : gmap string handler :=
  <[".pdf" := _extract_pdf]> (
  <[".docx" := _extract_docx]> (
  <[".pptx" := _extract_pptx]> (
  <[".txt" := _extract_txt]> (
  <[".jpg" := _extract_image]> (
  <[".jpeg" := _extract_image]> (
  <[".png" := _extract_image]> (
  <[".bmp" := _extract_image]> (
  <[".tiff" := _extract_image]> ∅)))))))).

(** [file_path.suffix.lower()] and the handler the table holds for it. *)
Definition file_ext (file_path : path) : string := Str.lower (Path.suffix file_path).

Definition select_handler (file_path : path) : option handler :=
  supported_formats !! file_ext file_path.

Definition extract_content (input_file output_dir : path) : M path :=
  let file_path := input_file in
  let* found := exists_ file_path in
  if negb found
  then raise (mk_exn FileNotFoundError ("File not found: " +:+ Path.str input_file))
  else
    let file_ext := file_ext file_path in
    match select_handler file_path with
    | None => raise (mk_exn ValueError ("Unsupported file format: " +:+ file_ext))
    | Some extract =>
        (* Create output directory *)
        let base_name := Path.stem file_path in
        let output_folder := output_dir // base_name in
        mkdir output_folder true true ;;
        let text_folder := output_folder // "text" in
        let images_folder := output_folder // "images" in
        mkdir text_folder false true ;;
        mkdir images_folder false true ;;
        (* Extract content *)
        try_except
          (extract file_path text_folder images_folder)
          (fun e =>
             rmtree output_folder ;;
             raise (mk_exn Exception
                      ("Error extracting " +:+ file_ext +:+ " file: " +:+ exn_msg e))) ;;
        ret output_folder
    end.

(** The parsed command line: [input_file], [--output], [--password]. *)
Record Args := mk_Args {
  input_file : path;
  output : path;
  password : option string
}.

(** [args.password or extractor.generate_password()] *)
Definition choose_password (given : option string) : string :=
  match given with
  | Some p => if Str.truthy p then p else generate_password 16
  | None => generate_password 16
  end.

(** [main]: the exit status of the process, 0 unless [sys.exit(1)]. *)
Definition main (args : Args) : world → Z * world :=
  fun w =>
    match
      (print ("Processing file: " +:+ Path.str (input_file args)) ;;
       (* Extract content *)
       let* output_folder := extract_content (input_file args) (output args) in
       (* Generate or use provided password *)
       let password := choose_password (password args) in
       (* Encrypt the output *)
       let* encrypted_zip := encrypt_folder output_folder password in
       (* Clean up unencrypted folder *)
       rmtree output_folder ;;
       print ("Successfully processed " +:+ Path.str (input_file args)) ;;
       print ("Encrypted output: " +:+ Path.str encrypted_zip) ;;
       print ("Password: " +:+ password) ;;
       print "Please save this password securely as it cannot be recovered!") w
    with
    | (Ok _, w') => (0, w')
    | (Raise e, w') =>
        match print ("Error: " +:+ exn_msg e) w' with
        | (_, w'') => (1, w'')
        end
    end.

End FileExtractor.

(** * Vocabulary of the properties *)

(** ** Runs and two-state invariants *)

(** Every run of [m], normal or not, relates the world before to the world
    after. *)
Definition respects (R : world → world → Prop) {A} (m : M A) : Prop :=
  ∀ w r w', m w = (r, w') → R w w'.

(** Directories stay directories. *)
Definition dirs_kept (w w' : world) : Prop :=
  ∀ q, stat w q = Some Dir → stat w' q = Some Dir.

(** Nothing outside [P] changes. *)
Definition same_outside (P : path → Prop) (w w' : world) : Prop :=
  ∀ q, ¬ P q → fs w' !! q = fs w !! q.

(** ** Extraction *)

(** The folder [extract_content] works in. *)
Definition output_folder_of (input_file output_dir : path) : path :=
  output_dir // Path.stem input_file.

(** A path the operating system takes as it is written: no component is
    [..]. *)
Definition plain (p : path) : Prop := ".." ∉ p.

(** The three [mkdir] calls of [extract_content], on their own. *)
Definition make_folders (output_folder : path) : M unit :=
  mkdir output_folder true true ;;
  mkdir (output_folder // "text") false true ;;
  mkdir (output_folder // "images") false true.

(** The message of the exception [extract_content] raises in its
    [except] clause. *)
Definition extraction_error (input_file : path) (e : exn) : exn :=
  mk_exn Exception
    ("Error extracting " +:+ Str.lower (Path.suffix input_file) +:+ " file: " +:+ exn_msg e).

(** The recognized extensions, as suffixes. *)
Definition recognized : list string :=
  [".pdf"; ".docx"; ".pptx"; ".txt"; ".jpg"; ".jpeg"; ".png"; ".bmp"; ".tiff"].

(** Two characters that are equal or the two cases of one letter. *)
Definition is_upper (c : ascii) : Prop := (65 ≤ nat_of_ascii c ≤ 90)%nat.
Definition to_lower (c : ascii) : ascii := ascii_of_nat (nat_of_ascii c + 32).
Definition same_letter (a b : ascii) : Prop :=
  a = b ∨ (is_upper a ∧ b = to_lower a) ∨ (is_upper b ∧ a = to_lower b).

(** Two strings that differ only in letter case. *)
Fixpoint eq_ignore_case (s t : string) : Prop :=
  match s, t with
  | EmptyString, EmptyString => True
  | String a s', String b t' => same_letter a b ∧ eq_ignore_case s' t'
  | _, _ => False
  end.

(** ** Passwords *)

(** A letter, a digit or a punctuation character. *)
Definition is_password_char (c : ascii) : Prop :=
  c ∈ Str.to_list ascii_letters ∨ c ∈ Str.to_list digits ∨ c ∈ Str.to_list punctuation.

(** ** Pages of a PDF *)

(** The UTF-8 encoding of one white-space character. *)
Inductive white : string → Prop :=
| white1 a : Str.space1 a = true → white (String a EmptyString)
| white2 a b : Str.space2 a b = true → white (String a (String b EmptyString))
| white3 a b c :
    Str.space3 a b c = true → white (String a (String b (String c EmptyString))).

(** A text of white space only, the empty text included. *)
Inductive blank : string → Prop :=
| blank_nil : blank EmptyString
| blank_cons e s : white e → blank s → blank (e +:+ s).

(** A text with a character that is not white space. *)
Definition nonblank (text : string) : Prop := ¬ blank text.

Definition nonblankb (text : string) : bool := Str.truthy (Str.lstrip text).

(** The block of page [page_num]: its header line, then its text. *)
Definition page_block (page_num : nat) (text : string) : string :=
  "--- Page " +:+ Str.of_nat page_num +:+ " ---" +:+ nl +:+ text +:+ nl.

(** One block per non-blank page, numbered from [start], in page order. *)
Definition page_blocks_from (start : nat) (pages : list string) : list string :=
  map (fun p : nat * string => page_block p.1 p.2)
      (List.filter (fun p : nat * string => nonblankb p.2) (enumerate start pages)).

Definition page_blocks (pages : list string) : list string := page_blocks_from 1 pages.

(** ** Packaging *)

Definition zip_path_of (folder_path : path) : path := Path.add_suffix folder_path ".zip".
Definition temp_zip_of (folder_path : path) : path := Path.add_suffix folder_path "_temp.zip".

(** The member [zipf.write] makes of a file found by the walk. *)
Definition written_member (file : path * content) : member :=
  Member (mk_ZipInfo (String.concat "/" file.1) (PyInt ZIP_DEFLATED)
            (Zipfile.name_flags (String.concat "/" file.1)))
         file.2.

(** The files the first pass of [encrypt_folder] meets: those below the
    folder, as the walk finds them once the archive is open. *)
Definition walked (L : Libs) (folder_path : path) (w : world) : list (path * content) :=
  walk_files L folder_path
    (set_fs <[zip_path_of folder_path := File (Bytes EmptyString)]> w).

(** The first pass: how it ends, and the members it has written. *)
Definition first_pass (L : Libs) (folder_path : path) (w : world)
  : result unit * list member :=
  Zipfile.writer_for_each (walked L folder_path w)
    (fun file =>
       Zipfile.write ZIP_DEFLATED (st_mtime_year L (folder_path ++ file.1))
         (String.concat "/" file.1) file.2)
    [].

Definition packed (L : Libs) (folder_path : path) (w : world) : list member :=
  (first_pass L folder_path w).2.

(** A modification time the archive format can hold. *)
Definition zip_year (year : Z) : Prop := 1980 ≤ year ≤ 2107.

(** The step of the second pass of [encrypt_folder] for one member. *)
Definition rewrite_member (item : member) : Zipfile.writer unit :=
  fun members =>
    match Zipfile.read item None with
    | Ok data =>
        Zipfile.writestr (member_info item) data
          (Some (PyZipInfo (filename (member_info item)))) members
    | Raise e => (Raise e, members)
    end.

Definition unencrypted (m : member) : Prop :=
  Zipfile.is_encrypted (member_info m) = false.

(** The world once the first pass is over, and once the temporary archive
    is closed on a second pass that wrote nothing. *)
Definition first_archive (L : Libs) (folder_path : path) (w : world) : world :=
  set_fs <[zip_path_of folder_path := File (Archive (packed L folder_path w))]> w.

Definition second_archive (L : Libs) (folder_path : path) (w : world) : world :=
  set_fs <[temp_zip_of folder_path := File (Archive [])]> (first_archive L folder_path w).

(** The world [encrypt_folder] returns in: the temporary archive has taken
    the place of the first one. *)
Definition renamed_archive (L : Libs) (folder_path : path) (w : world) : world :=
  set_fs (fun m => <[zip_path_of folder_path := File (Archive [])]>
                     (delete (temp_zip_of folder_path) m))
         (set_fs (delete (zip_path_of folder_path)) (second_archive L folder_path w)).

(** ** Sample collaborators and worlds *)

Definition reader_error : exn := mk_exn LibraryError "EOF marker not found".

(** Readers that know three PDF files by their bytes and fail on anything
    else; no rendering back end, no OCR engine. *)
Definition sample_libs : Libs :=
  {| pdf_pages_text c :=
       match c with
       | Bytes "three pages" => Ok ["Alpha"; EmptyString; "Gamma"]
       | Bytes "one space" => Ok [" "]
       | Bytes "no text" => Ok [EmptyString]
       | _ => Raise reader_error
       end;
     convert_from_path _ := Raise (mk_exn LibraryError "Unable to get page count.");
     Document _ := Raise (mk_exn LibraryError "Package not found");
     Presentation _ := Raise (mk_exn LibraryError "Package not found");
     decode_ignore c := match c with Bytes s => s | Archive _ => EmptyString end;
     image_to_string _ := Raise (mk_exn LibraryError "tesseract is not installed");
     random_draw k := (7 * k + 3)%nat;
     st_mtime_year _ := 2024;
     scandir_rank _ := 0%nat |}.

(** A working directory with some inputs under [in], an output root [out]
    that already holds a folder [damaged] with a file, and two folders
    ready for packaging: [doc] with one text file of 10 bytes, [bare] with
    no file at all. *)
Definition sample_world : world :=
  mk_world
    (list_to_map
       [ (["in"], Dir);
         (["in"; "report.pdf"], File (Bytes "three pages"));
         (["in"; "spaces.pdf"], File (Bytes "one space"));
         (["in"; "scan.pdf"], File (Bytes "no text"));
         (["in"; "damaged.pdf"], File (Bytes "garbage"));
         (["in"; "notes.xyz"], File (Bytes "plain notes"));
         (["out"], Dir);
         (["out"; "damaged"], Dir);
         (["out"; "damaged"; "keep.txt"], File (Bytes "precious"));
         (["out"; "doc"], Dir);
         (["out"; "doc"; "text"], Dir);
         (["out"; "doc"; "text"; "extracted_text.txt"], File (Bytes "0123456789"));
         (["out"; "doc"; "images"], Dir);
         (["out"; "bare"], Dir);
         (["out"; "bare"; "text"], Dir);
         (["out"; "bare"; "images"], Dir) ])
    [].

(** A working directory with a file of its own and, under [in], a damaged
    input whose name is [..pdf]: its stem is the single dot. *)
Definition dotted_world : world :=
  mk_world
    (list_to_map
       [ (["in"], Dir);
         (["in"; "..pdf"], File (Bytes "garbage"));
         (["keep.txt"], File (Bytes "precious")) ])
    [].

(** [sample_world] once [extract_content] has made its folders for the
    input [damaged.pdf] under a new output root [fresh]. *)
Definition fresh_folders (w : world) : world :=
  set_fs (fun m => <[["fresh"; "damaged"; "images"] := Dir]>
                     (<[["fresh"; "damaged"; "text"] := Dir]>
                        (<[["fresh"; "damaged"] := Dir]>
                           (<[["fresh"] := Dir]> m)))) w.

(** [sample_world] once the folders for [damaged.pdf] are made under the
    existing output root [out], where [out/damaged] is already there. *)
Definition damaged_folders (w : world) : world :=
  set_fs (fun m => <[["out"; "damaged"; "images"] := Dir]>
                     (<[["out"; "damaged"; "text"] := Dir]> m)) w.

(** ** Further vocabulary *)

(** Files stay files, whatever becomes of their content. *)
Definition files_kept (w w' : world) : Prop :=
  ∀ q c, fs w !! q = Some (File c) → ∃ c', fs w' !! q = Some (File c').

(** Lines are only added to the output. *)
Definition stdout_grows (w w' : world) : Prop :=
  ∃ lines, stdout w' = stdout w ++ lines.

(** The world once [main] has announced the input. *)
Definition announced (input_file : path) (w : world) : world :=
  mk_world (fs w) (stdout w ++ ["Processing file: " +:+ Path.str input_file]).

(** The world in which [main] exits after an error [msg]. *)
Definition reported (msg : string) (w : world) : world :=
  mk_world (fs w) (stdout w ++ ["Error: " +:+ msg]).

(** The suffixes handled by [_extract_image], and by [_extract_txt]. *)
Definition image_suffixes : list string := [".jpg"; ".jpeg"; ".png"; ".bmp"; ".tiff"].

(** Outside the folder [O], an entry is as before or is a directory that
    was missing on the way to [O]. *)
Definition only_ancestors_made (O : path) (w w' : world) : Prop :=
  ∀ q, ¬ O `prefix_of` q →
       fs w' !! q = fs w !! q ∨
       (fs w !! q = None ∧ fs w' !! q = Some Dir ∧ q `prefix_of` O).

(** A working directory with one input of each kind, and an output root
    with a folder [work] ready for a handler. *)
Definition office_world : world :=
  mk_world
    (list_to_map
       [ (["in"], Dir);
         (["in"; "memo.txt"], File (Bytes "remember the milk"));
         (["in"; "photo.png"], File (Bytes "PNG pixels"));
         (["in"; "letter.docx"], File (Bytes "docx bytes"));
         (["in"; "deck.pptx"], File (Bytes "pptx bytes"));
         (["in"; "paper.pdf"], File (Bytes "pdf bytes"));
         (["out"], Dir);
         (["out"; "work"], Dir);
         (["out"; "work"; "text"], Dir);
         (["out"; "work"; "images"], Dir) ])
    [].

(** Readers that know these inputs: a letter with two non-blank
    paragraphs and two pictures among three relationships, a deck of two
    slides with a picture each, a paper of one page rendered as two images;
    the OCR engine is missing. *)
Definition office_letter : docx_document :=
  mk_docx ["Dear reader,"; "  "; "Yours."]
          [ mk_rel "media/image1.png" (Ok (Bytes "first picture"));
            mk_rel "styles.xml" (Ok (Bytes "styles"));
            mk_rel "media/image2.jpeg" (Ok (Bytes "second picture")) ].

Definition office_deck : list (list pptx_shape) :=
  [ [mk_shape (Some "Welcome") None; mk_shape None (Some (Bytes "logo"))];
    [mk_shape (Some " ") None; mk_shape None (Some (Bytes "chart"))] ].

Definition office_libs : Libs :=
  {| pdf_pages_text c :=
       match c with
       | Bytes "pdf bytes" => Ok ["Abstract"]
       | _ => Raise reader_error
       end;
     convert_from_path c :=
       match c with
       | Bytes "pdf bytes" => Ok [Bytes "page one"; Bytes "page two"]
       | _ => Raise (mk_exn LibraryError "Unable to get page count.")
       end;
     Document c :=
       match c with
       | Bytes "docx bytes" => Ok office_letter
       | _ => Raise (mk_exn LibraryError "Package not found")
       end;
     Presentation c :=
       match c with
       | Bytes "pptx bytes" => Ok office_deck
       | _ => Raise (mk_exn LibraryError "Package not found")
       end;
     decode_ignore c := match c with Bytes s => s | Archive _ => EmptyString end;
     image_to_string _ := Raise (mk_exn LibraryError "tesseract is not installed");
     random_draw k := k;
     st_mtime_year _ := 2024;
     scandir_rank _ := 0%nat |}.

(** An entry is as before, or is a directory that was missing on the way
    to [p]. *)
Definition made_dirs (p : path) (w w' : world) : Prop :=
  ∀ q, fs w' !! q = fs w !! q ∨
       (fs w !! q = None ∧ fs w' !! q = Some Dir ∧ q `prefix_of` p).

(** The number a string of decimal digits stands for. *)
Definition decimal_value (s : string) : option nat :=
  option_map Nat.of_uint (NilEmpty.uint_of_string s).

(** The relationships [_extract_docx] takes for images. *)
Definition image_rels (rels : list docx_rel) : list docx_rel :=
  List.filter (fun rel => Str.contains "image" (target_ref rel)) rels.

(** The names [_extract_docx] and [_extract_pdf] give to their images. *)
Definition docx_image_name (image_count : nat) : string :=
  "image_" +:+ Str.pad3 image_count +:+ ".png".

Definition pdf_page_name (i : nat) : string :=
  "page_" +:+ Str.pad3 i +:+ ".png".

(** The lines [_extract_docx] writes: each non-blank paragraph, then a
    line feed. *)
Definition docx_lines (paras : list string) : list string :=
  map (fun para => para +:+ nl) (List.filter nonblankb paras).

(** The lines [_extract_pptx] writes for the shapes of a slide, for a
    slide, and for a deck numbered from [start]. *)
Definition shape_lines (shapes : list pptx_shape) : list string :=
  flat_map (fun shape =>
              match shape_text shape with
              | Some text => if nonblankb text then [text +:+ nl] else []
              | None => []
              end)
           shapes.

Definition slide_lines (slide_num : nat) (shapes : list pptx_shape) : list string :=
  ["--- Slide " +:+ Str.of_nat slide_num +:+ " ---" +:+ nl] ++ shape_lines shapes ++ [nl].

Definition deck_lines_from (start : nat) (slides : list (list pptx_shape)) : list string :=
  flat_map (fun p : nat * list pptx_shape => slide_lines p.1 p.2) (enumerate start slides).

(** The paths [_extract_pptx] writes its images to. *)
Definition pptx_image_path (images_folder q : path) : Prop :=
  ∃ slide_num image_count,
    q = images_folder // ("slide_" +:+ Str.of_nat slide_num +:+ "_image_" +:+
                          Str.pad3 image_count +:+ ".png").

(** The name [_extract_pptx] gives to an image, and the pictures of a
    slide and of a deck in the order the handler meets them, each with the
    number of its slide. *)
Definition pptx_image_name (slide_num image_count : nat) : string :=
  "slide_" +:+ Str.of_nat slide_num +:+ "_image_" +:+ Str.pad3 image_count +:+ ".png".

Definition slide_pictures (slide_num : nat) (shapes : list pptx_shape) : list (nat * content) :=
  flat_map (fun shape =>
              match shape_image shape with
              | Some image_data => [(slide_num, image_data)]
              | None => []
              end)
           shapes.

Definition deck_pictures (slides : list (nat * list pptx_shape)) : list (nat * content) :=
  flat_map (fun p : nat * list pptx_shape => slide_pictures p.1 p.2) slides.

(** * Properties *)

(** ** Composition of runs *)

Section Runs.

Context (R : world → world → Prop) `{!PreOrder R}.

Lemma respects_ret {A} (a : A) : respects R (ret a).
Proof. intros w r w' [= _ <-]. reflexivity. Qed.

Lemma respects_raise {A} e : respects R (@raise A e).
Proof. intros w r w' [= _ <-]. reflexivity. Qed.

Lemma respects_lift {A} (x : result A) : respects R (lift x).
Proof. intros w r w' [= _ <-]. reflexivity. Qed.

Lemma respects_bind {A B} (m : M A) (k : A → M B) :
  respects R m → (∀ a, respects R (k a)) → respects R (bind m k).
Proof.
  intros Hm Hk w r w'. unfold bind.
  destruct (m w) as [[a|e] w1] eqn:E; intros H.
  - transitivity w1; [eapply Hm | eapply Hk]; eauto.
  - injection H as _ <-. eapply Hm; eauto.
Qed.

Lemma respects_try_except {A} (m : M A) (h : exn → M A) :
  respects R m → (∀ e, respects R (h e)) → respects R (try_except m h).
Proof.
  intros Hm Hh w r w'. unfold try_except.
  destruct (m w) as [[a|e] w1] eqn:E; intros H.
  - injection H as _ <-. eapply Hm; eauto.
  - transitivity w1; [eapply Hm | eapply Hh]; eauto.
Qed.

Lemma respects_for_each {A} (l : list A) (body : A → M unit) :
  (∀ x, respects R (body x)) → respects R (for_each l body).
Proof.
  intros Hb. induction l as [|x l IH]; simpl.
  - apply respects_ret.
  - apply respects_bind; auto.
Qed.

End Runs.

#[local] Instance dirs_kept_preorder : PreOrder dirs_kept.
Proof. split; [intros w q; auto | intros w1 w2 w3 H12 H23 q Hq; auto]. Qed.

#[local] Instance same_outside_preorder P : PreOrder (same_outside P).
Proof.
  split; [intros w q; auto |].
  intros w1 w2 w3 H12 H23 q Hq. rewrite H23, H12; auto.
Qed.

Lemma stat_nonempty w p : p ≠ [] → stat w p = fs w !! p.
Proof. destruct p; [congruence | reflexivity]. Qed.

Lemma stat_insert_ne w p q n :
  p ≠ q → p ≠ [] → stat (set_fs <[p := n]> w) q = stat w q.
Proof.
  intros Hne Hp. destruct q as [|c q]; [reflexivity |].
  simpl. by rewrite lookup_insert_ne.
Qed.

Lemma stat_insert_eq w p n : p ≠ [] → stat (set_fs <[p := n]> w) p = Some n.
Proof. intros Hp. rewrite stat_nonempty by done. simpl. by rewrite lookup_insert_eq. Qed.

Lemma stat_root w : stat w [] = Some Dir.
Proof. reflexivity. Qed.

(** A node put where there was no directory keeps all directories. *)
Lemma dirs_kept_insert w p n :
  stat w p ≠ Some Dir → dirs_kept w (set_fs <[p := n]> w).
Proof.
  intros Hp q Hq. rewrite stat_insert_ne; [done | congruence |].
  intros ->. by apply Hp.
Qed.

Lemma same_outside_insert (P : path → Prop) w p n :
  P p → same_outside P w (set_fs <[p := n]> w).
Proof. intros Hp q Hq. simpl. rewrite lookup_insert_ne; [done | congruence]. Qed.

Lemma same_outside_delete (P : path → Prop) w p :
  P p → same_outside P w (set_fs (delete p) w).
Proof. intros Hp q Hq. simpl. rewrite lookup_delete_ne; [done | congruence]. Qed.

Lemma same_outside_weaken (P Q : path → Prop) w w' :
  (∀ q, P q → Q q) → same_outside P w w' → same_outside Q w w'.
Proof. intros HPQ H q Hq. apply H. auto. Qed.

Section Primitives.

Context (R : world → world → Prop) `{!PreOrder R}.

(** Printing changes no file-system entry. *)
Hypothesis R_stdout : ∀ w out, R w (mk_world (fs w) out).

Lemma respects_print line : respects R (print line).
Proof. intros w r w' [= _ <-]. apply R_stdout. Qed.

Lemma respects_read_file p : respects R (read_file p).
Proof.
  intros w r w'. unfold read_file.
  destruct (stat w p) as [[c|]|]; intros [= _ <-]; reflexivity.
Qed.

Lemma respects_exists p : respects R (exists_ p).
Proof. intros w r w' [= _ <-]. reflexivity. Qed.

(** Putting a file at an allowed path is fine wherever there is no
    directory. *)
Context (allowed : path → Prop).
Hypothesis R_put :
  ∀ w p c, allowed p → stat w p ≠ Some Dir → R w (set_fs <[p := File c]> w).

Lemma respects_write_file p c : allowed p → respects R (write_file p c).
Proof.
  intros Hp w r w'. unfold write_file.
  destruct (stat w p) as [[c0|]|] eqn:E.
  - intros [= _ <-]. apply R_put; [done | congruence].
  - intros [= _ <-]. reflexivity.
  - destruct (check_parent p w); intros [= _ <-]; [reflexivity |].
    apply R_put; [done | congruence].
Qed.

Lemma respects_copy2 src dst :
  allowed dst → allowed (dst // Path.basename src) → respects R (copy2 src dst).
Proof.
  unfold copy2. intros Hd Hd' w r w'.
  destruct (_ && _).
  - intros [= _ <-]. reflexivity.
  - apply respects_bind; [done | apply respects_read_file |].
    intros c. apply respects_write_file. by destruct (is_dir dst w).
Qed.

End Primitives.

(** ** Joining paths *)

Lemma join_name p name : Path.is_dot name = false → p // name = p ++ [name].
Proof. unfold Path.join. by intros ->. Qed.

Lemma join_dot p name : Path.is_dot name = true → p // name = p.
Proof. unfold Path.join. by intros ->. Qed.

Lemma join_prefix p name : p `prefix_of` p // name.
Proof. unfold Path.join. destruct (Path.is_dot name); [done | by eexists]. Qed.

Lemma join_below p q name : p `prefix_of` q → p `prefix_of` q // name.
Proof. intros H. etrans; [exact H | apply join_prefix]. Qed.

Lemma parent_join p name : Path.is_dot name = false → Path.parent (p // name) = p.
Proof. intros H. rewrite join_name by done. unfold Path.parent. apply removelast_last. Qed.

Lemma join_ne p name : Path.is_dot name = false → p // name ≠ p.
Proof.
  intros H. rewrite join_name by done. intros Heq. apply (f_equal length) in Heq.
  rewrite length_app in Heq. simpl in Heq. lia.
Qed.

Lemma join_nonempty p name : Path.is_dot name = false → p // name ≠ [].
Proof. intros H. rewrite join_name by done. by destruct p. Qed.

Lemma join_inj p name name' :
  Path.is_dot name = false → Path.is_dot name' = false →
  p // name = p // name' → name = name'.
Proof.
  intros H H'. rewrite !join_name by done. intros Heq.
  by apply app_inv_head in Heq as [= ->].
Qed.

(** ** Directory creation *)

Lemma os_mkdir_Ok p w u w' :
  os_mkdir p w = (Ok u, w') → stat w p = None ∧ w' = set_fs <[p := Dir]> w.
Proof.
  unfold os_mkdir. destruct (stat w p); [intros [=] |].
  destruct (check_parent p w); intros [=]. by subst.
Qed.

Lemma os_mkdir_Raise p w e w' : os_mkdir p w = (Raise e, w') → w' = w.
Proof.
  unfold os_mkdir. destruct (stat w p); [by intros [= _ <-] |].
  destruct (check_parent p w); by intros [=].
Qed.

Lemma mkdir_fuel_dirs_kept fuel p parents exist_ok :
  respects dirs_kept (mkdir_fuel fuel p parents exist_ok).
Proof.
  revert p parents exist_ok.
  induction fuel as [|fuel IH]; intros p parents exist_ok w r w'; simpl;
    destruct (os_mkdir p w) as [[u|e] w1] eqn:E.
  all: try (intros [= _ <-]; apply os_mkdir_Ok in E as [E ->];
            apply dirs_kept_insert; congruence).
  all: apply os_mkdir_Raise in E as ->.
  - destruct (exn_cls e); try (intros [= _ <-]; reflexivity);
      destruct (_ || _); intros [= _ <-]; reflexivity.
  - destruct (exn_cls e).
    2-13: destruct (_ || _); intros [= _ <-]; reflexivity.
    destruct (_ || _); [intros [= _ <-]; reflexivity |].
    revert w r w'. apply respects_bind; [apply _ | apply IH | intros; apply IH].
Qed.

Lemma mkdir_forgiven p exist_ok e w u w' :
  (if negb exist_ok || negb (is_dir p w) then (Raise e, w) else (Ok tt, w)) = (Ok u, w') →
  stat w' p = Some Dir.
Proof.
  unfold is_dir. destruct (negb exist_ok); simpl; [by intros [=] |].
  destruct (stat w p) as [[|]|] eqn:E; simpl; intros [=]. by subst.
Qed.

Lemma mkdir_fuel_Ok fuel p parents exist_ok w u w' :
  mkdir_fuel fuel p parents exist_ok w = (Ok u, w') → stat w' p = Some Dir.
Proof.
  revert p parents exist_ok w u w'.
  induction fuel as [|fuel IH]; intros p parents exist_ok w u w'; simpl;
    destruct (os_mkdir p w) as [[u1|e] w1] eqn:E.
  all: try (intros [= _ <-]; apply os_mkdir_Ok in E as [E ->];
            apply stat_insert_eq; by intros ->).
  all: apply os_mkdir_Raise in E as ->.
  - destruct (exn_cls e); first [by intros [=] | apply mkdir_forgiven].
  - destruct (exn_cls e).
    2-13: apply mkdir_forgiven.
    destruct (_ || _); [by intros [=] |].
    unfold bind. destruct (mkdir_fuel fuel (Path.parent p) true true w) as [[?|?] ?];
      [|by intros [=]].
    apply IH.
Qed.

Lemma mkdir_dirs_kept p parents exist_ok : respects dirs_kept (mkdir p parents exist_ok).
Proof. apply mkdir_fuel_dirs_kept. Qed.

Lemma mkdir_Ok p parents exist_ok w u w' :
  mkdir p parents exist_ok w = (Ok u, w') → stat w' p = Some Dir.
Proof. apply mkdir_fuel_Ok. Qed.

(** ** Removal of a tree *)

Lemma rmtree_Ok p w :
  p ≠ [] → stat w p = Some Dir →
  rmtree p w = (Ok tt, set_fs (filter (fun kv => ¬ p `prefix_of` kv.1)) w).
Proof. unfold rmtree. intros Hp ->. by destruct p. Qed.

(** The working directory is emptied, and the call fails. *)
Lemma rmtree_root w :
  rmtree [] w = (Raise (EINVAL []), set_fs (filter (fun kv => ¬ [] `prefix_of` kv.1)) w).
Proof. reflexivity. Qed.

(** Whatever the directory, what was at or below it is gone. *)
Lemma rmtree_Dir p w :
  stat w p = Some Dir →
  ∃ r, rmtree p w = (r, set_fs (filter (fun kv => ¬ p `prefix_of` kv.1)) w).
Proof. unfold rmtree. intros ->. destruct p; by eexists. Qed.

(** After [rmtree p] nothing is left at or below [p], and everything else
    is as before. *)
Lemma rmtree_lookup p w q :
  fs (set_fs (filter (fun kv : path * node => ¬ p `prefix_of` kv.1)) w) !! q =
  if decide (p `prefix_of` q) then None else fs w !! q.
Proof.
  simpl. case_decide as Hq.
  - apply map_lookup_filter_None. right. intros n _ Hn. by apply Hn.
  - destruct (fs w !! q) as [n|] eqn:E.
    + by apply map_lookup_filter_Some.
    + apply map_lookup_filter_None. by left.
Qed.

(** ** What the handlers may do *)

Section Handlers.

Context (L : Libs).
Context (R : world → world → Prop) `{!PreOrder R}.
Hypothesis R_stdout : ∀ w out, R w (mk_world (fs w) out).
Hypothesis R_put : ∀ w p c, stat w p ≠ Some Dir → R w (set_fs <[p := File c]> w).

Local Ltac step :=
  first
    [ apply respects_ret; solve [apply _]
    | apply respects_raise; solve [apply _]
    | apply respects_lift; solve [apply _]
    | solve [apply respects_print; apply R_stdout]
    | solve [apply respects_read_file; apply _]
    | solve [apply (respects_write_file R (fun _ => True));
             [intros; apply R_put; assumption | exact I]]
    | solve [apply (respects_copy2 R (fun _ => True));
             [intros; apply R_put; assumption | exact I | exact I]]
    | apply respects_bind; [apply _ | | intros ?]
    | apply respects_try_except; [apply _ | | intros ?]
    | apply respects_for_each; [apply _ | intros ?]
    | match goal with
      | |- respects _ (if ?b then _ else _) => destruct b
      | |- respects _ (match ?x with _ => _ end) => destruct x
      end ].

Lemma respects_extract_pdf f t i : respects R (_extract_pdf L f t i).
Proof. unfold _extract_pdf. repeat step. Qed.

Lemma respects_docx_images i rels n : respects R (docx_images i rels n).
Proof.
  revert n. induction rels as [|rel rels IH]; intros n; simpl; repeat step; apply IH.
Qed.

Lemma respects_extract_docx f t i : respects R (_extract_docx L f t i).
Proof. unfold _extract_docx. repeat step; apply respects_docx_images. Qed.

Lemma respects_pptx_shape_images i k shapes n :
  respects R (pptx_shape_images i k shapes n).
Proof.
  revert n. induction shapes as [|s shapes IH]; intros n; simpl; repeat step; apply IH.
Qed.

Lemma respects_pptx_images i slides n : respects R (pptx_images i slides n).
Proof.
  revert n. induction slides as [|[k shapes] slides IH]; intros n; simpl; repeat step.
  - apply respects_pptx_shape_images.
  - apply IH.
Qed.

Lemma respects_extract_pptx f t i : respects R (_extract_pptx L f t i).
Proof. unfold _extract_pptx. repeat step; apply respects_pptx_images. Qed.

Lemma respects_extract_txt f t i : respects R (_extract_txt L f t i).
Proof. unfold _extract_txt. repeat step. Qed.

Lemma respects_extract_image f t i : respects R (_extract_image L f t i).
Proof. unfold _extract_image. repeat step. Qed.

(** The table holds the five handlers and nothing else. *)
Lemma supported_formats_values ext h :
  supported_formats L !! ext = Some h →
  h = _extract_pdf L ∨ h = _extract_docx L ∨ h = _extract_pptx L ∨
  h = _extract_txt L ∨ h = _extract_image L.
Proof.
  unfold supported_formats. intros H.
  repeat (apply lookup_insert_Some in H as [[_ <-]|[_ H]]; [tauto |]).
  by rewrite lookup_empty in H.
Qed.

Lemma respects_handler ext h f t i :
  supported_formats L !! ext = Some h → respects R (h f t i).
Proof.
  intros H. apply supported_formats_values in H as [->|[->|[->|[->| ->]]]].
  - apply respects_extract_pdf.
  - apply respects_extract_docx.
  - apply respects_extract_pptx.
  - apply respects_extract_txt.
  - apply respects_extract_image.
Qed.

End Handlers.

Lemma dirs_kept_stdout w out : dirs_kept w (mk_world (fs w) out).
Proof. intros [|c q] Hq; [done | exact Hq]. Qed.

Lemma dirs_kept_put w p c : stat w p ≠ Some Dir → dirs_kept w (set_fs <[p := File c]> w).
Proof. apply dirs_kept_insert. Qed.

(** No handler of the table removes or replaces a directory. *)
Lemma handler_dirs_kept L ext h f t i :
  supported_formats L !! ext = Some h → respects dirs_kept (h f t i).
Proof.
  apply respects_handler; [apply _ | apply dirs_kept_stdout | apply dirs_kept_put].
Qed.

(** ** Sequencing *)

Lemma bind_Ok {A B} (m : M A) (k : A → M B) w a w1 :
  m w = (Ok a, w1) → bind m k w = k a w1.
Proof. unfold bind. by intros ->. Qed.

Lemma bind_Raise {A B} (m : M A) (k : A → M B) w e w1 :
  m w = (Raise e, w1) → bind m k w = (Raise e, w1).
Proof. unfold bind. by intros ->. Qed.

Lemma bind_inv_Ok {A B} (m : M A) (k : A → M B) w b w' :
  bind m k w = (Ok b, w') → ∃ a w1, m w = (Ok a, w1) ∧ k a w1 = (Ok b, w').
Proof. unfold bind. destruct (m w) as [[a|e] w1]; [eauto | by intros [=]]. Qed.

(** ** The run of [extract_content] *)

Section Extraction.

Context (L : Libs).

Lemma make_folders_Ok O w u w1 :
  make_folders O w = (Ok u, w1) →
  stat w1 O = Some Dir ∧ stat w1 (O // "text") = Some Dir ∧
  stat w1 (O // "images") = Some Dir.
Proof.
  unfold make_folders. intros H.
  apply bind_inv_Ok in H as (u1 & wa & Ha & H).
  apply bind_inv_Ok in H as (u2 & wb & Hb & Hc).
  pose proof (mkdir_Ok _ _ _ _ _ _ Ha) as HO.
  pose proof (mkdir_Ok _ _ _ _ _ _ Hb) as HT.
  pose proof (mkdir_Ok _ _ _ _ _ _ Hc) as HI.
  pose proof (mkdir_dirs_kept _ _ _ _ _ _ Hb) as Kb.
  pose proof (mkdir_dirs_kept _ _ _ _ _ _ Hc) as Kc.
  auto.
Qed.

(** Missing input: [FileNotFoundError], and nothing has happened. *)
Lemma extract_content_missing input out w :
  stat w input = None →
  extract_content L input out w =
    (Raise (mk_exn FileNotFoundError ("File not found: " +:+ Path.str input)), w).
Proof.
  intros H. unfold extract_content, bind, exists_.
  rewrite bool_decide_eq_false_2; [done |]. rewrite H. by intros [? ?].
Qed.

(** Existing input without a handler: [ValueError], and nothing has
    happened. *)
Lemma extract_content_unsupported input out w :
  stat w input ≠ None → select_handler L input = None →
  extract_content L input out w =
    (Raise (mk_exn ValueError ("Unsupported file format: " +:+ file_ext input)), w).
Proof.
  intros H Hsel. unfold extract_content, bind, exists_.
  rewrite bool_decide_eq_true_2; [| by destruct (stat w input); eauto].
  simpl. by rewrite Hsel.
Qed.

(** Existing input with a handler: the folders are made, then the
    handler runs inside the [try]. *)
Lemma extract_content_supported input out w extract :
  stat w input ≠ None → select_handler L input = Some extract →
  let O := output_folder_of input out in
  extract_content L input out w =
    (make_folders O ;;
     try_except (extract input (O // "text") (O // "images"))
       (fun e => rmtree O ;; raise (extraction_error input e)) ;;
     ret O) w.
Proof.
  intros H Hsel O. unfold extract_content, exists_.
  unfold bind at 1.
  rewrite bool_decide_eq_true_2; [| by destruct (stat w input); eauto].
  simpl. rewrite Hsel. unfold make_folders, O, output_folder_of, bind.
  destruct (mkdir _ true true w) as [[u1|e1] w1]; [| done].
  destruct (mkdir _ false true w1) as [[u2|e2] w2]; [| done].
  by destruct (mkdir _ false true w2) as [[u3|e3] w3].
Qed.

(** The handler raises: what was at or below the folder is removed,
    whatever it was, and the call ends as the removal ends. *)
Lemma extract_content_handler_raises_any input out w extract w1 e w2 :
  stat w input ≠ None → select_handler L input = Some extract →
  let O := output_folder_of input out in
  make_folders O w = (Ok tt, w1) →
  extract input (O // "text") (O // "images") w1 = (Raise e, w2) →
  extract_content L input out w =
    (Raise (match O with [] => EINVAL [] | _ :: _ => extraction_error input e end),
     set_fs (filter (fun kv => ¬ O `prefix_of` kv.1)) w2).
Proof.
  intros H Hsel O Hmk Hrun.
  rewrite (extract_content_supported _ _ _ _ H Hsel). fold O.
  rewrite (bind_Ok _ _ _ _ _ Hmk).
  unfold bind at 1, try_except. rewrite Hrun.
  assert (stat w2 O = Some Dir) as HO.
  { eapply handler_dirs_kept; [exact Hsel | exact Hrun |].
    by apply make_folders_Ok in Hmk as (? & _). }
  unfold bind, rmtree. rewrite HO. clearbody O. by destruct O.
Qed.

(** In a folder other than the working directory the removal succeeds,
    and the error is raised again with the extension in front. *)
Lemma extract_content_handler_raises input out w extract w1 e w2 :
  stat w input ≠ None → select_handler L input = Some extract →
  let O := output_folder_of input out in
  O ≠ [] →
  make_folders O w = (Ok tt, w1) →
  extract input (O // "text") (O // "images") w1 = (Raise e, w2) →
  extract_content L input out w =
    (Raise (extraction_error input e),
     set_fs (filter (fun kv => ¬ O `prefix_of` kv.1)) w2).
Proof.
  intros H Hsel O HO Hmk Hrun.
  rewrite (extract_content_handler_raises_any _ _ _ _ _ _ _ H Hsel Hmk Hrun).
  fold O. by destruct O.
Qed.

End Extraction.

(** ** The dispatch table *)

Lemma not_recognized_no_handler L ext :
  ext ∉ recognized → supported_formats L !! ext = None.
Proof.
  unfold recognized, supported_formats. intros H.
  rewrite !not_elem_of_cons in H.
  repeat (rewrite lookup_insert_ne; [| intros <-; tauto]).
  apply lookup_empty.
Qed.

Lemma recognized_has_handler L ext :
  ext ∈ recognized → is_Some (supported_formats L !! ext).
Proof.
  unfold recognized, supported_formats. intros H.
  repeat (apply elem_of_cons in H as [->|H]; [by eexists |]).
  by apply elem_of_nil in H.
Qed.

(** The handler of each kind of file. *)
Lemma select_handler_pdf L p :
  file_ext p = ".pdf" → select_handler L p = Some (_extract_pdf L).
Proof. unfold select_handler, supported_formats. intros ->. apply lookup_insert_eq. Qed.

Lemma nat_of_to_lower c : is_upper c → nat_of_ascii (to_lower c) = (nat_of_ascii c + 32)%nat.
Proof. intros [H1 H2]. unfold to_lower. apply nat_ascii_embedding. lia. Qed.

Lemma lower_ascii_upper c : is_upper c → Str.lower_ascii c = to_lower c.
Proof.
  intros [H1 H2]. unfold Str.lower_ascii.
  apply Nat.leb_le in H1, H2. by rewrite H1, H2.
Qed.

Lemma lower_ascii_to_lower c : is_upper c → Str.lower_ascii (to_lower c) = to_lower c.
Proof.
  intros H. unfold Str.lower_ascii. rewrite (nat_of_to_lower _ H).
  destruct H as [H1 H2].
  replace (nat_of_ascii c + 32 <=? 90)%nat with false; [by rewrite andb_false_r |].
  symmetry. apply Nat.leb_gt. lia.
Qed.

Lemma same_letter_lower a b : same_letter a b → Str.lower_ascii a = Str.lower_ascii b.
Proof.
  intros [->|[[H ->]|[H ->]]]; [done | |].
  - by rewrite lower_ascii_to_lower, lower_ascii_upper.
  - by rewrite lower_ascii_to_lower, lower_ascii_upper.
Qed.

Lemma eq_ignore_case_lower s t : eq_ignore_case s t → Str.lower s = Str.lower t.
Proof.
  revert t. induction s as [|a s IH]; intros [|b t]; simpl; try done.
  intros [Hab Hst]. by rewrite (same_letter_lower _ _ Hab), (IH _ Hst).
Qed.

(** ** Failure of the handler *)

Lemma mkdir_existing p parents w :
  stat w p = Some Dir → mkdir p parents true w = (Ok tt, w).
Proof.
  intros H. unfold mkdir.
  assert (os_mkdir p w = (Raise (EEXIST p), w)) as E by (unfold os_mkdir; by rewrite H).
  destruct (length p); simpl; rewrite E; simpl; unfold is_dir; by rewrite H.
Qed.

(** C3 (as amended). Whenever the handler chosen for the input raises,
    in an output folder that is not the working directory and has no
    component [..], [extract_content] removes the output folder it made,
    with everything in it, and raises the error again with the file
    extension in front: nothing is left at or below the output folder, and
    the rest of the file system is as the handler left it. *)
Theorem extract_content_cleans_up_on_error L input out w extract w1 e w2 :
  output_folder_of input out ≠ [] →
  plain (output_folder_of input out) →
  stat w input ≠ None →
  select_handler L input = Some extract →
  make_folders (output_folder_of input out) w = (Ok tt, w1) →
  extract input (output_folder_of input out // "text")
          (output_folder_of input out // "images") w1 = (Raise e, w2) →
  ∃ w',
    extract_content L input out w =
      (Raise (mk_exn Exception
                ("Error extracting " +:+ file_ext input +:+ " file: " +:+ exn_msg e)), w') ∧
    (∀ q, output_folder_of input out `prefix_of` q → fs w' !! q = None) ∧
    (∀ q, ¬ output_folder_of input out `prefix_of` q → fs w' !! q = fs w2 !! q) ∧
    stdout w' = stdout w2.
Proof.
  intros HO _ H Hsel Hmk Hrun. eexists. split.
  - by apply (extract_content_handler_raises L input out w extract w1 e w2).
  - split; [| split; [| done]]; intros q Hq; rewrite rmtree_lookup; by case_decide.
Qed.

Lemma extract_content_cleans_up_on_error_witness :
  let input := ["in"; "damaged.pdf"] in
  let out := ["fresh"] in
  ∃ w',
    extract_content sample_libs input out sample_world =
      (Raise (mk_exn Exception
                ("Error extracting " +:+ file_ext input +:+ " file: " +:+
                 exn_msg reader_error)), w') ∧
    (∀ q, output_folder_of input out `prefix_of` q → fs w' !! q = None) ∧
    (∀ q, ¬ output_folder_of input out `prefix_of` q →
          fs w' !! q = fs (fresh_folders sample_world) !! q) ∧
    stdout w' = stdout (fresh_folders sample_world).
Proof.
  apply (extract_content_cleans_up_on_error sample_libs ["in"; "damaged.pdf"] ["fresh"]
           sample_world (_extract_pdf sample_libs)
           (fresh_folders sample_world) reader_error (fresh_folders sample_world)).
  - discriminate.
  - apply (bool_decide_unpack _). vm_compute. exact I.
  - vm_compute. discriminate.
  - apply select_handler_pdf. reflexivity.
  - reflexivity.
  - reflexivity.
Defined.

(** The claim as first stated fails where the output folder is the
    working directory: the input is named [..pdf], so its stem is the
    single dot, and the output directory is the working directory. The
    reader fails on the input; the removal empties the working directory,
    the input and the file [keep.txt] included, and fails on the directory
    itself: the error raised is the one of the removal, not the error of
    the reader with the extension in front, and the folder is still
    there. *)
Lemma cleanup_fails_in_working_directory :
  let run := extract_content sample_libs ["in"; "..pdf"] [] dotted_world in
  output_folder_of ["in"; "..pdf"] [] = [] ∧
  select_handler sample_libs ["in"; "..pdf"] = Some (_extract_pdf sample_libs) ∧
  _extract_pdf sample_libs ["in"; "..pdf"] ["text"] ["images"]
    (set_fs (fun m => <[["images"] := Dir]> (<[["text"] := Dir]> m)) dotted_world) =
    (Raise reader_error,
     set_fs (fun m => <[["images"] := Dir]> (<[["text"] := Dir]> m)) dotted_world) ∧
  run.1 = Raise (mk_exn OSError "[Errno 22] Invalid argument: '.'") ∧
  run.1 ≠ Raise (mk_exn Exception
                   ("Error extracting .pdf file: " +:+ exn_msg reader_error)) ∧
  fs run.2 = ∅ ∧
  fs dotted_world !! ["keep.txt"] = Some (File (Bytes "precious")) ∧
  stat run.2 (output_folder_of ["in"; "..pdf"] []) = Some Dir.
Proof.
  intros run.
  assert (run = (Raise (mk_exn OSError "[Errno 22] Invalid argument: '.'"),
                 mk_world ∅ [])) as -> by reflexivity.
  repeat split; try reflexivity. discriminate.
Qed.

(** C10 (as amended). If the output folder exists before the run, and is
    neither the working directory nor a path with a component [..],
    [extract_content] works in it as it is ([mkdir] with [exist_ok=True]
    succeeds and changes nothing), and when the handler then raises, the
    folder goes with all it held before the run: no entry that was at or
    below it is left. *)
Theorem failed_extraction_removes_prior_content L input out w extract w1 e w2 :
  output_folder_of input out ≠ [] →
  plain (output_folder_of input out) →
  stat w input ≠ None →
  select_handler L input = Some extract →
  stat w (output_folder_of input out) = Some Dir →
  make_folders (output_folder_of input out) w = (Ok tt, w1) →
  extract input (output_folder_of input out // "text")
          (output_folder_of input out // "images") w1 = (Raise e, w2) →
  mkdir (output_folder_of input out) true true w = (Ok tt, w) ∧
  ∃ e' w',
    extract_content L input out w = (Raise e', w') ∧
    stat w' (output_folder_of input out) = None ∧
    ∀ q n, output_folder_of input out `prefix_of` q → fs w !! q = Some n →
           fs w' !! q = None.
Proof.
  intros HO _ H Hsel Hdir Hmk Hrun. split; [by apply mkdir_existing |].
  eexists _, _. split.
  - by apply (extract_content_handler_raises L input out w extract w1 e w2).
  - split.
    + rewrite stat_nonempty by done.
      rewrite rmtree_lookup. by rewrite decide_True.
    + intros q n Hq _. rewrite rmtree_lookup. by rewrite decide_True.
Qed.

Lemma failed_extraction_removes_prior_content_witness :
  let input := ["in"; "damaged.pdf"] in
  let out := ["out"] in
  mkdir (output_folder_of input out) true true sample_world = (Ok tt, sample_world) ∧
  ∃ e' w',
    extract_content sample_libs input out sample_world = (Raise e', w') ∧
    stat w' (output_folder_of input out) = None ∧
    ∀ q n, output_folder_of input out `prefix_of` q → fs sample_world !! q = Some n →
           fs w' !! q = None.
Proof.
  apply (failed_extraction_removes_prior_content sample_libs ["in"; "damaged.pdf"] ["out"]
           sample_world (_extract_pdf sample_libs)
           (damaged_folders sample_world) reader_error (damaged_folders sample_world)).
  - discriminate.
  - apply (bool_decide_unpack _). vm_compute. exact I.
  - vm_compute. discriminate.
  - apply select_handler_pdf. reflexivity.
  - reflexivity.
  - reflexivity.
  - reflexivity.
Defined.

(** The claim as first stated fails where the folder that exists before
    the run is the working directory (input [..pdf], output directory the
    working directory): after the failed extraction all it held is gone,
    but the folder itself is not removed. *)
Lemma working_directory_is_not_removed :
  let O := output_folder_of ["in"; "..pdf"] [] in
  let run := extract_content sample_libs ["in"; "..pdf"] [] dotted_world in
  stat dotted_world O = Some Dir ∧
  mkdir O true true dotted_world = (Ok tt, dotted_world) ∧
  (∃ e, run.1 = Raise e) ∧
  (∀ q, fs run.2 !! q = None) ∧
  stat run.2 O = Some Dir ∧
  stat run.2 O ≠ None.
Proof.
  intros O run.
  assert (run = (Raise (mk_exn OSError "[Errno 22] Invalid argument: '.'"),
                 mk_world ∅ [])) as -> by reflexivity.
  repeat split; try reflexivity; [by eexists | discriminate].
Qed.

(** ** Unsupported and missing inputs *)




(** ** Dispatch *)

(** C8. The handler chosen for a path depends only on the lower-case form
    of its suffix: two paths whose suffixes are equal once in lower case,
    in particular two suffixes that differ only in letter case, get the
    same handler. *)
Theorem handler_depends_on_lowercase_suffix L p q :
  Str.lower (Path.suffix p) = Str.lower (Path.suffix q) ∨
  eq_ignore_case (Path.suffix p) (Path.suffix q) →
  select_handler L p = select_handler L q.
Proof.
  intros [H|H]; unfold select_handler, file_ext.
  - by rewrite H.
  - by rewrite (eq_ignore_case_lower _ _ H).
Qed.

Lemma handler_depends_on_lowercase_suffix_witness :
  select_handler sample_libs ["in"; "REPORT.PDF"] =
  select_handler sample_libs ["archive"; "notes.pdf"].
Proof.
  apply (handler_depends_on_lowercase_suffix sample_libs
           ["in"; "REPORT.PDF"] ["archive"; "notes.pdf"]).
  right. vm_compute. unfold is_upper. simpl. intuition lia.
Defined.

(** ** Strings *)

Lemma to_list_of_list l : Str.to_list (Str.of_list l) = l.
Proof. induction l as [|c l IH]; simpl; by rewrite ?IH. Qed.

Lemma length_of_list l : String.length (Str.of_list l) = length l.
Proof. induction l as [|c l IH]; simpl; by rewrite ?IH. Qed.

Lemma to_list_append s t : Str.to_list (s +:+ t) = Str.to_list s ++ Str.to_list t.
Proof. induction s as [|c s IH]; simpl; by rewrite ?IH. Qed.

Lemma nth_elem_of i s : (i < String.length s)%nat → Str.nth i s ∈ Str.to_list s.
Proof.
  unfold Str.nth. revert i. induction s as [|c s IH]; intros i Hi; simpl in *; [lia |].
  destruct i as [|i]; [apply list_elem_of_here |].
  apply list_elem_of_further, IH. lia.
Qed.

Lemma of_list_to_list s : Str.of_list (Str.to_list s) = s.
Proof. induction s as [|c s IH]; simpl; by rewrite ?IH. Qed.

Lemma of_list_app l k : Str.of_list (l ++ k) = Str.of_list l +:+ Str.of_list k.
Proof. induction l as [|c l IH]; simpl; by rewrite ?IH. Qed.

Lemma append_assoc s t u : (s +:+ t) +:+ u = s +:+ (t +:+ u).
Proof.
  induction s as [|c s IH]; [done |].
  change (String c ((s +:+ t) +:+ u) = String c (s +:+ t +:+ u)). by f_equal.
Qed.

Lemma append_nil_r s : s +:+ EmptyString = s.
Proof.
  induction s as [|c s IH]; [done |].
  change (String c (s +:+ EmptyString) = String c s). by f_equal.
Qed.

(** *** White space *)

(** The first byte of a longer encoding is no white space by itself, and
    the first two bytes of an encoding of three are none either. *)
Lemma space2_not_space1 a b : Str.space2 a b = true → Str.space1 a = false.
Proof.
  unfold Str.space2, Str.space1.
  destruct (nat_of_ascii a =? 194)%nat eqn:E; [| done].
  apply Nat.eqb_eq in E. by rewrite E.
Qed.

Lemma space3_not_shorter a b c :
  Str.space3 a b c = true → Str.space1 a = false ∧ Str.space2 a b = false.
Proof.
  unfold Str.space3, Str.space2, Str.space1.
  destruct (nat_of_ascii a =? 225)%nat eqn:E1;
    [apply Nat.eqb_eq in E1; by rewrite E1 |].
  destruct (nat_of_ascii a =? 226)%nat eqn:E2;
    [apply Nat.eqb_eq in E2; by rewrite E2 |].
  destruct (nat_of_ascii a =? 227)%nat eqn:E3;
    [apply Nat.eqb_eq in E3; by rewrite E3 |].
  done.
Qed.

Lemma lstrip_white e s : white e → Str.lstrip (e +:+ s) = Str.lstrip s.
Proof.
  intros [a H|a b H|a b c H]; simpl.
  - by rewrite H.
  - by rewrite (space2_not_space1 _ _ H), H.
  - destruct (space3_not_shorter _ _ _ H) as [-> ->]. by rewrite H.
Qed.

Lemma blank_lstrip s : blank s → Str.lstrip s = EmptyString.
Proof. induction 1 as [|e s He _ IH]; [done |]. by rewrite lstrip_white. Qed.

Lemma blank_app s t : blank s → blank t → blank (s +:+ t).
Proof.
  induction 1 as [|e s He _ IH]; intros Ht; [done |].
  rewrite append_assoc. constructor; auto.
Qed.

Lemma blank_white e : white e → blank e.
Proof. intros He. rewrite <- (append_nil_r e). constructor; [done | constructor]. Qed.

(** What [lstrip] takes off is white space, and what it leaves does not
    begin with white space: it is left as it is by another [lstrip]. *)
Lemma lstrip_split s :
  ∃ pre, blank pre ∧ s = pre +:+ Str.lstrip s ∧
         Str.lstrip (Str.lstrip s) = Str.lstrip s.
Proof.
  assert (∀ n s, (String.length s < n)%nat →
                 ∃ pre, blank pre ∧ s = pre +:+ Str.lstrip s ∧
                        Str.lstrip (Str.lstrip s) = Str.lstrip s) as H.
  { clear s. induction n as [|n IH]; intros s Hn; [lia |].
    destruct s as [|a r1]; [exists EmptyString; by repeat constructor |].
    simpl in Hn. simpl.
    destruct (Str.space1 a) eqn:E1.
    { destruct (IH r1) as (pre & Hpre & Hs & Hi); [lia |].
      exists (String a EmptyString +:+ pre). split; [| split; [| done]].
      - constructor; [by constructor | done].
      - by rewrite append_assoc, <- Hs. }
    destruct r1 as [|b r2].
    { exists EmptyString. split; [constructor |]. split; [done |]. simpl. by rewrite E1. }
    simpl in Hn.
    destruct (Str.space2 a b) eqn:E2.
    { destruct (IH r2) as (pre & Hpre & Hs & Hi); [lia |].
      exists (String a (String b EmptyString) +:+ pre). split; [| split; [| done]].
      - constructor; [by constructor | done].
      - by rewrite append_assoc, <- Hs. }
    destruct r2 as [|c r3].
    { exists EmptyString. split; [constructor |]. split; [done |].
      simpl. by rewrite E1, E2. }
    simpl in Hn.
    destruct (Str.space3 a b c) eqn:E3.
    { destruct (IH r3) as (pre & Hpre & Hs & Hi); [lia |].
      exists (String a (String b (String c EmptyString)) +:+ pre).
      split; [| split; [| done]].
      - constructor; [by constructor | done].
      - by rewrite append_assoc, <- Hs. }
    exists EmptyString. split; [constructor |]. split; [done |].
    simpl. by rewrite E1, E2, E3. }
  apply (H (S (String.length s))). lia.
Qed.

Lemma lstrip_blank s : Str.lstrip s = EmptyString → blank s.
Proof.
  intros H. destruct (lstrip_split s) as (pre & Hpre & Hs & _).
  rewrite H, append_nil_r in Hs. by subst.
Qed.

(** The same from the other end. *)
Lemma rstrip_rev_blank l : Str.rstrip_rev l = [] → blank (Str.of_list (rev l)).
Proof.
  assert (∀ n l, (length l < n)%nat → Str.rstrip_rev l = [] →
                 blank (Str.of_list (rev l))) as H.
  { clear l. induction n as [|n IH]; intros l Hn; [lia |].
    destruct l as [|a r1]; [constructor |].
    simpl in Hn. simpl.
    destruct (Str.space1 a) eqn:E1.
    { intros H. rewrite of_list_app. apply blank_app; [apply IH; [lia | done] |].
      apply blank_white. by constructor. }
    destruct r1 as [|b r2]; [done |]. simpl in Hn.
    destruct (Str.space2 b a) eqn:E2.
    { intros H. simpl. rewrite <- app_assoc, of_list_app.
      apply blank_app; [apply IH; [lia | done] |].
      apply blank_white. by constructor. }
    destruct r2 as [|c r3]; [done |]. simpl in Hn.
    destruct (Str.space3 c b a) eqn:E3; [| done].
    intros H. simpl. rewrite <- !app_assoc, of_list_app.
    apply blank_app; [apply IH; [lia | done] |].
    apply blank_white. by constructor. }
  apply (H (S (length l))). lia.
Qed.

Lemma rstrip_blank s : Str.rstrip s = EmptyString → blank s.
Proof.
  unfold Str.rstrip. intros H.
  assert (Str.rstrip_rev (rev (Str.to_list s)) = []) as Hnil.
  { destruct (Str.rstrip_rev (rev (Str.to_list s))) as [|c l] eqn:E; [done |].
    apply (f_equal String.length) in H. rewrite length_of_list, length_rev in H.
    done. }
  apply rstrip_rev_blank in Hnil. by rewrite rev_involutive, of_list_to_list in Hnil.
Qed.

(** The test of the handlers, [text.strip()], holds exactly of the texts
    that are not white space only. *)
Lemma strip_truthy s : Str.truthy (Str.strip s) = nonblankb s.
Proof.
  unfold Str.strip, nonblankb.
  destruct (lstrip_split s) as (_ & _ & _ & Hi).
  destruct (Str.lstrip s) as [|a t] eqn:E; [done |].
  destruct (Str.rstrip (String a t)) eqn:Er; [| done].
  apply rstrip_blank, blank_lstrip in Er. by rewrite Hi in Er.
Qed.

Lemma nonblankb_spec s : nonblankb s = true ↔ nonblank s.
Proof.
  unfold nonblankb, nonblank. split.
  - intros H Hb. apply blank_lstrip in Hb. by rewrite Hb in H.
  - intros H. destruct (Str.lstrip s) eqn:E; [| done].
    destruct H. by apply lstrip_blank.
Qed.

(** ** The password *)

Lemma random_choice_elem_of L k s :
  s ≠ EmptyString → random_choice L k s ∈ Str.to_list s.
Proof.
  intros Hs. apply nth_elem_of. apply Nat.mod_upper_bound. by destruct s.
Qed.

Lemma generate_password_length L n : String.length (generate_password L n) = n.
Proof. unfold generate_password. by rewrite length_of_list, length_map, length_seq. Qed.

Lemma generate_password_chars L n :
  Forall is_password_char (Str.to_list (generate_password L n)).
Proof.
  unfold generate_password. rewrite to_list_of_list.
  apply Forall_forall. intros c Hc.
  apply list_elem_of_fmap in Hc as (k & -> & _).
  pose proof (random_choice_elem_of L k (ascii_letters +:+ digits +:+ punctuation)) as H.
  rewrite !to_list_append, !elem_of_app in H. unfold is_password_char. by apply H.
Qed.

(** C5 (as amended). With no password given, or the empty one, the
    password used has 16 characters, each a letter, a digit or a
    punctuation character; a non-empty password given by the caller is
    used as it is. *)
Theorem password_contract L :
  (String.length (choose_password L None) = 16%nat ∧
   Forall is_password_char (Str.to_list (choose_password L None))) ∧
  choose_password L (Some EmptyString) = choose_password L None ∧
  (∀ c p, choose_password L (Some (String c p)) = String c p).
Proof.
  split; [split |]; [apply generate_password_length | apply generate_password_chars |].
  by split.
Qed.

(** The claim as first stated fails for the empty password: the caller
    gives it, and a generated one is used and reported instead. *)
Lemma empty_password_not_used :
  choose_password sample_libs (Some EmptyString) = "dkryFMT07%,=^aho" ∧
  choose_password sample_libs (Some EmptyString) ≠ EmptyString ∧
  (main sample_libs (mk_Args ["in"; "scan.pdf"] ["out"] (Some EmptyString)) sample_world).1 = 0 ∧
  "Password: dkryFMT07%,=^aho" ∈
    stdout (main sample_libs (mk_Args ["in"; "scan.pdf"] ["out"] (Some EmptyString))
              sample_world).2.
Proof.
  split; [reflexivity |]. split; [by vm_compute |]. split; [reflexivity |].
  apply (bool_decide_unpack _). vm_compute. exact I.
Qed.

(** ** The text of a PDF *)

Lemma same_outside_stdout P w out : same_outside P w (mk_world (fs w) out).
Proof. by intros q _. Qed.

Lemma write_file_same_outside (P : path → Prop) p c :
  P p → respects (same_outside P) (write_file p c).
Proof.
  apply (respects_write_file (same_outside P) P
           (fun w p c Hp _ => same_outside_insert P w p (File c) Hp)).
Qed.

Lemma page_blocks_from_cons k text rest :
  page_blocks_from k (text :: rest) =
  (if nonblankb text then [page_block k text] else []) ++ page_blocks_from (S k) rest.
Proof. unfold page_blocks_from. simpl. by destruct (nonblankb text). Qed.

(** The loop over the pages builds the blocks of the non-blank pages. *)
Lemma pdf_text_loop acc k pages :
  foldl (fun text_content (p : nat * string) =>
           let '(page_num, text) := p in
           if Str.truthy (Str.strip text)
           then text_content ++
                ["--- Page " +:+ Str.of_nat page_num +:+ " ---" +:+ nl +:+ text +:+ nl]
           else text_content)
        acc (enumerate k pages) =
  acc ++ page_blocks_from k pages.
Proof.
  revert acc k. induction pages as [|text rest IH]; intros acc k; simpl.
  - unfold page_blocks_from. simpl. by rewrite app_nil_r.
  - rewrite IH, page_blocks_from_cons, strip_truthy.
    destruct (nonblankb text); [by rewrite <- app_assoc | done].
Qed.

Lemma pdf_text_content_blocks pages : pdf_text_content pages = page_blocks pages.
Proof. unfold pdf_text_content, page_blocks. by rewrite pdf_text_loop. Qed.

Lemma page_blocks_from_nil k pages :
  page_blocks_from k pages = [] ↔ Forall (fun text => ¬ nonblank text) pages.
Proof.
  revert k. induction pages as [|text rest IH]; intros k.
  - split; [constructor | done].
  - rewrite page_blocks_from_cons, Forall_cons.
    destruct (nonblankb text) eqn:E; simpl.
    + split; [done |]. intros [H _]. destruct H. by apply nonblankb_spec.
    + rewrite IH. split; [| by intros [_ ?]].
      intros H. split; [| done]. intros Hn%nonblankb_spec. congruence.
Qed.

Lemma page_blocks_nonempty pages :
  Exists nonblank pages → nonempty (page_blocks pages) = true.
Proof.
  intros H. destruct (page_blocks pages) eqn:E; [| done].
  apply page_blocks_from_nil in E. apply Exists_exists in H as (text & Hin & Hnb).
  rewrite Forall_forall in E. by destruct (E text Hin).
Qed.

(** A [try] whose [except] clause only prints always ends normally. *)
Lemma try_except_print_Ok (m : M unit) (line : exn → string) w r w' :
  try_except m (fun e => print (line e)) w = (r, w') → r = Ok tt.
Proof.
  unfold try_except. destruct (m w) as [[[]|e] w1]; by intros [= <- _].
Qed.

(** C6 (as amended). For a PDF whose pages are read, the handler writes
    the text file only if some page has non-blank text (text with a
    character that is not white space), and then the file holds one
    [--- Page N ---] block per non-blank page, [N] being the 1-based page
    number, in page order; a page with blank text, empty or not, gets no
    block. When every page is blank the text file is not touched. *)
Theorem pdf_text_file_blocks L file_path text_folder images_folder w file pages r w' :
  stat w file_path = Some (File file) →
  pdf_pages_text L file = Ok pages →
  _extract_pdf L file_path text_folder images_folder w = (r, w') →
  pdf_text_content pages = page_blocks pages ∧
  (Forall (fun text => ¬ nonblank text) pages →
     r = Ok tt ∧
     fs w' !! (text_folder // "extracted_text.txt") =
     fs w !! (text_folder // "extracted_text.txt")) ∧
  (Exists nonblank pages →
     (stat w text_folder = Some Dir →
      stat w (text_folder // "extracted_text.txt") ≠ Some Dir → r = Ok tt) ∧
     (r = Ok tt →
      fs w' !! (text_folder // "extracted_text.txt") =
      Some (File (Bytes (Str.join (page_blocks pages)))))).
Proof.
  intros Hfile Hpages Hrun.
  split; [apply pdf_text_content_blocks |].
  unfold _extract_pdf in Hrun.
  match type of Hrun with
  | bind _ (fun _ => ?img) _ = _ => set (images := img) in Hrun
  end.
  assert (respects (same_outside (fun q => q ≠ text_folder // "extracted_text.txt")) images)
    as Hkeep.
  { apply respects_try_except; [apply _ | | intros e; apply respects_print;
                                               apply same_outside_stdout].
    apply respects_bind; [apply _ | apply respects_read_file; apply _ | intros c].
    apply respects_bind; [apply _ | apply respects_lift; apply _ | intros imgs].
    apply respects_for_each; [apply _ |]. intros [i image].
    apply write_file_same_outside.
    unfold Path.join. simpl. intros [_ [=]]%app_inj_tail. }
  assert (∀ w1, images w1 = (r, w') → r = Ok tt) as Htotal.
  { intros w1. apply try_except_print_Ok. }
  unfold bind, read_file, lift in Hrun. rewrite Hfile, Hpages in Hrun.
  rewrite pdf_text_content_blocks in Hrun.
  split.
  - intros Hblank. apply (page_blocks_from_nil 1) in Hblank.
    fold (page_blocks pages) in Hblank. rewrite Hblank in Hrun. simpl in Hrun. split; [by eapply Htotal |].
    apply (Hkeep _ _ _ Hrun). by intros [].
  - intros Hsome. rewrite (page_blocks_nonempty _ Hsome) in Hrun.
    unfold write_file in Hrun. split.
    + intros Hdir Hnot.
      assert (check_parent (text_folder // "extracted_text.txt") w = None) as Hp.
      { unfold check_parent, Path.parent, Path.join. simpl.
        by rewrite removelast_last, Hdir. }
      rewrite Hp in Hrun.
      destruct (stat w (text_folder // "extracted_text.txt")) as [[c|]|];
        [by eapply Htotal | done | by eapply Htotal].
    + intros ->.
      assert (∀ w1, images w1 = (Ok tt, w') →
                    fs w1 !! (text_folder // "extracted_text.txt") =
                    Some (File (Bytes (Str.join (page_blocks pages)))) →
                    fs w' !! (text_folder // "extracted_text.txt") =
                    Some (File (Bytes (Str.join (page_blocks pages))))) as Hput.
      { intros w1 H1 H2. rewrite <- H2. apply (Hkeep _ _ _ H1). by intros []. }
      destruct (stat w (text_folder // "extracted_text.txt")) as [[c|]|].
      * eapply Hput; [exact Hrun |]. simpl. apply lookup_insert_eq.
      * done.
      * destruct (check_parent _ w); [done |].
        eapply Hput; [exact Hrun |]. simpl. apply lookup_insert_eq.
Qed.

Lemma pdf_text_file_blocks_witness :
  let run := _extract_pdf sample_libs ["in"; "report.pdf"]
               ["out"; "bare"; "text"] ["out"; "bare"; "images"] sample_world in
  page_blocks ["Alpha"; EmptyString; "Gamma"] = [page_block 1 "Alpha"; page_block 3 "Gamma"] ∧
  run.1 = Ok tt ∧
  fs run.2 !! ["out"; "bare"; "text"; "extracted_text.txt"] =
    Some (File (Bytes (Str.join [page_block 1 "Alpha"; page_block 3 "Gamma"]))).
Proof.
  intros run.
  destruct (pdf_text_file_blocks sample_libs ["in"; "report.pdf"]
              ["out"; "bare"; "text"] ["out"; "bare"; "images"] sample_world
              (Bytes "three pages") ["Alpha"; EmptyString; "Gamma"] run.1 run.2)
    as (_ & _ & Hsome).
  - reflexivity.
  - reflexivity.
  - reflexivity.
  - assert (Exists nonblank ["Alpha"; EmptyString; "Gamma"]) as Hex.
    { apply Exists_cons_hd. apply nonblankb_spec. reflexivity. }
    destruct (Hsome Hex) as [Hok Hfile].
    assert (run.1 = Ok tt) as Hrun.
    { apply Hok; [reflexivity | vm_compute; discriminate]. }
    split; [reflexivity |]. split; [exact Hrun |]. exact (Hfile Hrun).
Defined.

(** The claim as first stated fails for a page whose text is white space
    only: that text is not empty, and the page gets no block; here it is
    the only page, and no text file is written. *)
Lemma whitespace_page_gets_no_block :
  let run := _extract_pdf sample_libs ["in"; "spaces.pdf"]
               ["out"; "bare"; "text"] ["out"; "bare"; "images"] sample_world in
  pdf_pages_text sample_libs (Bytes "one space") = Ok [" "] ∧
  " " ≠ EmptyString ∧
  pdf_text_content [" "] = [] ∧
  run.1 = Ok tt ∧
  fs run.2 !! ["out"; "bare"; "text"; "extracted_text.txt"] = None.
Proof.
  intros run. split; [reflexivity |]. split; [discriminate |].
  split; [reflexivity |]. split; reflexivity.
Qed.

(** ** Names of the archives *)

Lemma length_append s t :
  String.length (s +:+ t) = (String.length s + String.length t)%nat.
Proof. induction s as [|c s IH]; simpl; by rewrite ?IH. Qed.

Lemma append_inj_l s t u : s +:+ t = s +:+ u → t = u.
Proof. induction s as [|c s IH]; simpl; [done |]. intros [=]. auto. Qed.

Lemma add_suffix_snoc l x s : Path.add_suffix (l ++ [x]) s = l ++ [x +:+ s].
Proof.
  unfold Path.add_suffix, Path.parent, Path.name.
  rewrite removelast_last, last_last. by destruct l.
Qed.

Lemma add_suffix_nonempty p s : Path.add_suffix p s ≠ [].
Proof.
  destruct p as [|c p] using rev_ind; [done |].
  rewrite add_suffix_snoc. by destruct p.
Qed.

(** [f"{p}.zip"] and [f"{p}_temp.zip"] are two different paths. *)
Lemma zip_temp_different p : Path.add_suffix p ".zip" ≠ Path.add_suffix p "_temp.zip".
Proof.
  destruct p as [|c p _] using rev_ind; [done |].
  rewrite !add_suffix_snoc. intros [_ H]%app_inj_tail.
  by apply append_inj_l in H.
Qed.

(** A path with something appended to its last component lies beside the
    path, not below it. *)
Lemma add_suffix_not_below p s :
  p ≠ [] → s ≠ EmptyString → ¬ p `prefix_of` Path.add_suffix p s.
Proof.
  intros Hp Hs. destruct p as [|c p _] using rev_ind; [done |].
  rewrite add_suffix_snoc. intros [k Hk].
  assert (k = []) as ->.
  { apply (f_equal length) in Hk. rewrite !length_app in Hk. simpl in Hk.
    destruct k; [done | simpl in Hk; lia]. }
  rewrite app_nil_r in Hk. apply app_inj_tail in Hk as [_ Hk].
  apply (f_equal String.length) in Hk. rewrite length_append in Hk.
  destruct s; [done | simpl in Hk; lia].
Qed.

(** ** Writing archives *)

Lemma write_file_Ok p c w u w' :
  write_file p c w = (Ok u, w') → w' = set_fs <[p := File c]> w ∧ p ≠ [].
Proof.
  unfold write_file. destruct p as [|x p]; [by intros [=] |].
  destruct (stat w (x :: p)) as [[c0|]|]; [by intros [=] | by intros [=] |].
  destruct (check_parent _ w); by intros [=].
Qed.

Lemma write_file_Raise p c w e w' : write_file p c w = (Raise e, w') → w' = w.
Proof.
  unfold write_file. destruct (stat w p) as [[c0|]|]; [by intros [=] | by intros [=] |].
  destruct (check_parent _ w); by intros [=].
Qed.

Lemma write_file_again p c c' w :
  p ≠ [] →
  write_file p c' (set_fs <[p := File c]> w) = (Ok tt, set_fs <[p := File c']> w).
Proof.
  intros Hp. unfold write_file. rewrite stat_insert_eq by done.
  f_equal. unfold set_fs. simpl. f_equal. apply insert_insert_eq.
Qed.

(** The two ways through a [with ZipFile(p, 'w')] block: the file cannot
    be opened and nothing happens, or the body runs and the archive holds
    what the body wrote, however the body ended. *)
Lemma with_ZipFile_w_inv {A} p (body : world → Zipfile.writer A) w r w' :
  Zipfile.with_ZipFile_w p body w = (r, w') →
  (∃ e, r = Raise e ∧ w' = w ∧ write_file p (Bytes EmptyString) w = (Raise e, w)) ∨
  (p ≠ [] ∧ stat w p ≠ Some Dir ∧
   ∃ members, body (set_fs <[p := File (Bytes EmptyString)]> w) [] = (r, members) ∧
              w' = set_fs <[p := File (Archive members)]> w).
Proof.
  unfold Zipfile.with_ZipFile_w, bind.
  destruct (write_file p (Bytes EmptyString) w) as [[u|e] w1] eqn:E.
  - pose proof E as Hdir.
    apply write_file_Ok in E as [-> Hp].
    destruct (body _ []) as [r0 members] eqn:Eb.
    rewrite write_file_again by done. unfold lift. intros [= <- <-].
    right. split; [done |]. split; [| by eexists].
    intros Hd. unfold write_file in Hdir. by rewrite Hd in Hdir.
  - pose proof (write_file_Raise _ _ _ _ _ E) as ->. intros [= <- <-].
    left. by eexists.
Qed.

(** ** The walk *)

Lemma walk_files_Permutation L top w : walk_files L top w ≡ₚ files_below top w.
Proof. apply (merge_sort_Permutation _). Qed.

Lemma files_below_elem_of top w rel c :
  (rel, c) ∈ files_below top w ↔ rel ≠ [] ∧ fs w !! (top ++ rel) = Some (File c).
Proof.
  unfold files_below. rewrite list_elem_of_omap. split.
  - intros ([q n] & Hq & Hf). apply elem_of_map_to_list in Hq. simpl in Hf.
    destruct n as [c0|]; [| done]. case_bool_decide as Hpre; [| done].
    destruct Hpre as [[k ->] Hneq]. injection Hf as <- <-.
    unfold Path.relpath. rewrite drop_app_length.
    split; [| done]. intros ->. by rewrite app_nil_r in Hneq.
  - intros [Hrel Hq]. exists (top ++ rel, File c). split.
    + by apply elem_of_map_to_list.
    + simpl. rewrite bool_decide_eq_true_2.
      * unfold Path.relpath. by rewrite drop_app_length.
      * split; [by eexists |]. intros H. apply Hrel.
        apply (f_equal length) in H. rewrite length_app in H.
        destruct rel; [done | simpl in H; lia].
Qed.

(** The walk hands out each file below the folder, once. *)
Lemma walk_files_elem_of L top w rel c :
  (rel, c) ∈ walk_files L top w ↔ rel ≠ [] ∧ fs w !! (top ++ rel) = Some (File c).
Proof. rewrite walk_files_Permutation. apply files_below_elem_of. Qed.



(** With the archive open beside the folder, the walk finds the files
    that were below the folder before. *)
Lemma walked_elem_of L folder w rel c :
  folder ≠ [] →
  (rel, c) ∈ walked L folder w ↔ rel ≠ [] ∧ fs w !! (folder ++ rel) = Some (File c).
Proof.
  intros Hne. unfold walked. rewrite walk_files_elem_of. simpl.
  rewrite lookup_insert_ne; [done |].
  intros H. apply (add_suffix_not_below folder ".zip"); [done | done |].
  unfold zip_path_of in H. rewrite H. by eexists.
Qed.

Lemma walked_nonempty L folder w q c :
  folder `prefix_of` q → q ≠ folder → fs w !! q = Some (File c) →
  walked L folder w ≠ [].
Proof.
  intros [rel ->] Hne Hq.
  set (w1 := set_fs <[zip_path_of folder := File (Bytes EmptyString)]> w).
  assert (∃ c1, fs w1 !! (folder ++ rel) = Some (File c1)) as [c1 Hq1].
  { unfold w1. simpl. destruct (decide (zip_path_of folder = folder ++ rel)) as [->|Hz].
    - rewrite lookup_insert_eq. by eexists.
    - rewrite lookup_insert_ne by done. by eexists. }
  assert ((rel, c1) ∈ walked L folder w) as Hin.
  { apply walk_files_elem_of. split; [| done]. intros ->. by rewrite app_nil_r in Hne. }
  intros Hnil. rewrite Hnil in Hin. by apply elem_of_nil in Hin.
Qed.

(** ** The two passes *)

Lemma write_file_of_walk year (file : path * content) members :
  Zipfile.write ZIP_DEFLATED year (String.concat "/" file.1) file.2 members =
    if year <? 1980 then
      (Raise (mk_exn ValueError "ZIP does not support timestamps before 1980"), members)
    else if 2107 <? year then
      (Raise (mk_exn StructError "ushort format requires 0 <= number <= 65535"), members)
    else (Ok tt, members ++ [written_member file]).
Proof. unfold Zipfile.write. by destruct (year <? 1980). Qed.

(** The first pass writes the files in the order of the walk, up to the
    first whose modification time the format cannot hold; it goes through
    when there is none. *)
Lemma first_pass_loop (year : path * content → Z) files acc :
  let run := Zipfile.writer_for_each files
               (fun file => Zipfile.write ZIP_DEFLATED (year file)
                              (String.concat "/" file.1) file.2) acc in
  ∃ written,
    written `prefix_of` files ∧
    run.2 = acc ++ map written_member written ∧
    (run.1 = Ok tt → written = files) ∧
    (Forall (fun file => zip_year (year file)) files → run.1 = Ok tt).
Proof.
  revert acc. induction files as [|file files IH]; intros acc; simpl.
  - exists []. by rewrite app_nil_r.
  - rewrite write_file_of_walk.
    destruct (year file <? 1980) eqn:E1.
    { exists []. simpl. rewrite app_nil_r. repeat split; [apply prefix_nil | done |].
      intros [Hy _]%Forall_cons. unfold zip_year in Hy. lia. }
    simpl. destruct (2107 <? year file) eqn:E2.
    { exists []. simpl. rewrite app_nil_r. repeat split; [apply prefix_nil | done |].
      intros [Hy _]%Forall_cons. unfold zip_year in Hy. lia. }
    destruct (IH (acc ++ [written_member file])) as (written & Hpre & Hmem & Hok & Hall).
    exists (file :: written). repeat split.
    + by apply prefix_cons.
    + rewrite Hmem. simpl. by rewrite <- app_assoc.
    + intros H. f_equal. by apply Hok.
    + intros [_ H]%Forall_cons. by apply Hall.
Qed.

Lemma first_pass_written L folder w :
  ∃ written,
    written `prefix_of` walked L folder w ∧
    packed L folder w = map written_member written ∧
    ((first_pass L folder w).1 = Ok tt → written = walked L folder w) ∧
    (Forall (fun file : path * content => zip_year (st_mtime_year L (folder ++ file.1)))
            (walked L folder w) →
     (first_pass L folder w).1 = Ok tt).
Proof.
  apply (first_pass_loop (fun file => st_mtime_year L (folder ++ file.1))
           (walked L folder w) []).
Qed.

Lemma first_pass_Ok L folder w :
  (first_pass L folder w).1 = Ok tt →
  packed L folder w = map written_member (walked L folder w).
Proof.
  intros H. destruct (first_pass_written L folder w) as (written & _ & -> & Hok & _).
  by rewrite (Hok H).
Qed.

(** The second pass fails on the first member it meets: the compression
    method it hands to [writestr] is not a method. *)
Lemma rewrite_member_raises item members :
  ∃ e, rewrite_member item members = (Raise e, members).
Proof.
  unfold rewrite_member. destruct (Zipfile.read item None); by eexists.
Qed.


Lemma second_pass items acc :
  (items = [] ∧ Zipfile.writer_for_each items rewrite_member acc = (Ok tt, acc)) ∨
  (items ≠ [] ∧ ∃ e, Zipfile.writer_for_each items rewrite_member acc = (Raise e, acc)).
Proof.
  destruct items as [|item items]; [by left | right]. split; [done |]. simpl.
  destruct (rewrite_member_raises item acc) as [e ->]. by eexists.
Qed.

(** ** The run of [encrypt_folder] *)

(** Every run of [encrypt_folder] is one of five: the archive cannot be
    opened; the first pass fails, or the temporary archive cannot be
    opened; the folder has files, the first pass has gone through and the
    second pass fails on the first of them; the folder has no file, and
    the final renaming fails, or succeeds. *)
Lemma encrypt_folder_run L folder pw w r w' :
  encrypt_folder L folder pw w = (r, w') →
  (∃ e, r = Raise e ∧ w' = w) ∨
  (∃ e, r = Raise e ∧ w' = first_archive L folder w) ∨
  ((first_pass L folder w).1 = Ok tt ∧ walked L folder w ≠ [] ∧
   ∃ e, r = Raise e ∧ w' = second_archive L folder w) ∨
  (walked L folder w = [] ∧
   ∃ e, r = Raise e ∧ w' = set_fs (delete (zip_path_of folder)) (second_archive L folder w)) ∨
  (walked L folder w = [] ∧ r = Ok (zip_path_of folder) ∧ w' = renamed_archive L folder w).
Proof.
  intros Hrun.
  pose proof (add_suffix_nonempty folder ".zip") as Hzip.
  pose proof (add_suffix_nonempty folder "_temp.zip") as Htemp.
  pose proof (zip_temp_different folder) as Hzt.
  unfold encrypt_folder in Hrun.
  change (Path.add_suffix folder ".zip") with (zip_path_of folder) in *.
  change (Path.add_suffix folder "_temp.zip") with (temp_zip_of folder) in *.
  unfold bind at 1 in Hrun.
  match type of Hrun with
  | context [Zipfile.with_ZipFile_w (zip_path_of folder) ?b w] =>
      destruct (Zipfile.with_ZipFile_w (zip_path_of folder) b w) as [r1 w1] eqn:E1
  end.
  apply with_ZipFile_w_inv in E1 as [(e & -> & -> & _)|(_ & _ & members & E1 & ->)].
  { injection Hrun as <- <-. left. by eexists. }
  change (first_pass L folder w = (r1, members)) in E1.
  assert (members = packed L folder w) as -> by (unfold packed; by rewrite E1).
  change (set_fs <[zip_path_of folder := File (Archive (packed L folder w))]> w)
    with (first_archive L folder w) in Hrun.
  destruct r1 as [[]|e1].
  2: { injection Hrun as <- <-. right. left. by eexists. }
  assert ((first_pass L folder w).1 = Ok tt) as Hpass by (by rewrite E1).
  assert (stat (first_archive L folder w) (zip_path_of folder) =
          Some (File (Archive (packed L folder w)))) as Hfirst
    by (by apply stat_insert_eq).
  unfold bind at 1 in Hrun. unfold bind at 1 in Hrun.
  unfold Zipfile.ZipFile_r at 1 in Hrun. unfold bind at 1, read_file in Hrun.
  rewrite Hfirst in Hrun. unfold ret at 1 in Hrun.
  match type of Hrun with
  | context [Zipfile.with_ZipFile_w (temp_zip_of folder) ?b (first_archive L folder w)] =>
      destruct (Zipfile.with_ZipFile_w (temp_zip_of folder) b (first_archive L folder w))
        as [r2 w2] eqn:E2
  end.
  apply with_ZipFile_w_inv in E2 as [(e & -> & -> & _)|(_ & _ & members & E2 & ->)].
  { injection Hrun as <- <-. right. left. by eexists. }
  change (Zipfile.writer_for_each (packed L folder w) rewrite_member [] = (r2, members))
    in E2.
  pose proof (first_pass_Ok _ _ _ Hpass) as Hpacked.
  destruct (second_pass (packed L folder w) []) as [[Hnil Hsecond]|[Hsome [e Hsecond]]];
    rewrite Hsecond in E2; injection E2 as <- <-;
    change (set_fs <[temp_zip_of folder := File (Archive [])]> (first_archive L folder w))
      with (second_archive L folder w) in Hrun.
  2: { injection Hrun as <- <-. right. right. left. split; [done |].
       split; [| by eexists]. intros H. apply Hsome. by rewrite Hpacked, H. }
  assert (walked L folder w = []) as Hwalked.
  { rewrite Hpacked in Hnil. by apply fmap_nil_inv in Hnil. }
  unfold bind at 1, os_remove in Hrun.
  assert (stat (second_archive L folder w) (zip_path_of folder) =
          Some (File (Archive (packed L folder w)))) as Hsnd.
  { unfold second_archive. rewrite stat_insert_ne; [exact Hfirst | congruence | done]. }
  rewrite Hsnd in Hrun.
  unfold bind at 1, os_rename in Hrun.
  assert (stat (set_fs (delete (zip_path_of folder)) (second_archive L folder w))
               (temp_zip_of folder) = Some (File (Archive []))) as Htemp'.
  { rewrite stat_nonempty by done. simpl.
    rewrite lookup_delete_ne by done. apply lookup_insert_eq. }
  assert (stat (set_fs (delete (zip_path_of folder)) (second_archive L folder w))
               (zip_path_of folder) = None) as Hgone.
  { rewrite stat_nonempty by done. simpl. apply lookup_delete_eq. }
  rewrite Htemp', Hgone in Hrun.
  destruct (stat _ (Path.parent (zip_path_of folder))) as [[c|]|].
  - injection Hrun as <- <-. do 3 right. left. split; [done | by eexists].
  - injection Hrun as <- <-. do 4 right. done.
  - injection Hrun as <- <-. do 3 right. left. split; [done | by eexists].
Qed.

(** ** What the archive holds, and what the call leaves alone *)

Lemma written_member_unencrypted file : unencrypted (written_member file).
Proof.
  unfold unencrypted, written_member, Zipfile.is_encrypted, Zipfile.name_flags. simpl.
  by destruct (Str.is_ascii _).
Qed.

Lemma packed_unencrypted L folder w : Forall unencrypted (packed L folder w).
Proof.
  destruct (first_pass_written L folder w) as (written & _ & -> & _).
  apply Forall_forall. intros m (file & -> & _)%list_elem_of_fmap.
  apply written_member_unencrypted.
Qed.

(** A first pass that goes through is faithful: the archive it writes
    has one member per file below the folder, under the file's relative
    path and with the file's content, and no other member. *)
Lemma packed_round_trip L folder w m :
  folder ≠ [] →
  (first_pass L folder w).1 = Ok tt →
  m ∈ packed L folder w ↔
  ∃ rel c, rel ≠ [] ∧ fs w !! (folder ++ rel) = Some (File c) ∧
           m = written_member (rel, c).
Proof.
  intros Hne Hpass. rewrite (first_pass_Ok _ _ _ Hpass), list_elem_of_fmap. split.
  - intros ([rel c] & -> & Hin). apply walked_elem_of in Hin as [Hrel Hq]; [| done].
    by exists rel, c.
  - intros (rel & c & Hrel & Hq & ->). exists (rel, c). split; [done |].
    by apply walked_elem_of.
Qed.


(** X1. A folder with a file in it is never packaged: whatever the password,
    [encrypt_folder] ends with an exception. *)
Lemma encrypt_folder_raises_on_files L folder pw w q c :
  folder `prefix_of` q → q ≠ folder → fs w !! q = Some (File c) →
  ∃ e w', encrypt_folder L folder pw w = (Raise e, w').
Proof.
  intros Hpre Hne Hq. pose proof (walked_nonempty L _ _ _ _ Hpre Hne Hq) as Hwalked.
  destruct (encrypt_folder L folder pw w) as [r w'] eqn:E.
  apply encrypt_folder_run in E
    as [(e & -> & _)|[(e & -> & _)|[(_ & _ & e & -> & _)|[(? & _)|(? & _)]]]]; eauto; done.
Qed.

(** When [encrypt_folder] returns, it returns the path of the archive, the
    archive is there, and it is empty. *)
Lemma encrypt_folder_Ok L folder pw w z w' :
  encrypt_folder L folder pw w = (Ok z, w') →
  z = zip_path_of folder ∧ fs w' !! zip_path_of folder = Some (File (Archive [])).
Proof.
  intros E. apply encrypt_folder_run in E
    as [(e & [=] & _)|[(e & [=] & _)|[(_ & _ & e & [=] & _)|[(_ & e & [=] & _)|(_ & [= ->] & ->)]]]].
  split; [done |]. simpl. apply lookup_insert_eq.
Qed.

(** Only the two archive paths are ever written, and nothing is printed. *)
Lemma encrypt_folder_frame L folder pw w r w' :
  encrypt_folder L folder pw w = (r, w') →
  stdout w' = stdout w ∧
  ∀ q, q ≠ zip_path_of folder → q ≠ temp_zip_of folder → fs w' !! q = fs w !! q.
Proof.
  intros E. apply encrypt_folder_run in E
    as [(e & _ & ->)|[(e & _ & ->)|[(_ & _ & e & _ & ->)|[(_ & e & _ & ->)|(_ & _ & ->)]]]];
    (split; [done |]); intros q Hz Ht; simpl;
    rewrite ?lookup_insert_ne, ?lookup_delete_ne, ?lookup_insert_ne by done; done.
Qed.

(** X2. No archive with an encrypted member comes out of [encrypt_folder]: an
    archive present after the call is one that was there before, or all
    its members are unencrypted. *)
Lemma encrypt_folder_never_encrypts L folder pw w r w' q ms :
  encrypt_folder L folder pw w = (r, w') →
  fs w' !! q = Some (File (Archive ms)) →
  fs w !! q = Some (File (Archive ms)) ∨ Forall unencrypted ms.
Proof.
  intros E Hq.
  pose proof (packed_unencrypted L folder w) as Hp.
  pose proof (zip_temp_different folder) as Hzt.
  apply encrypt_folder_run in E
    as [(e & _ & ->)|[(e & _ & ->)|[(_ & _ & e & _ & ->)|[(_ & e & _ & ->)|(_ & _ & ->)]]]];
    simpl in Hq; [by left | ..].
  all: destruct (decide (q = zip_path_of folder)) as [->|Hz];
       [| destruct (decide (q = temp_zip_of folder)) as [->|Ht]];
       simplify_map_eq; auto using Forall_nil.
Qed.

(** ** The password and the archive *)

(** C9. The password has no influence on packaging: for any folder and
    any two passwords, [encrypt_folder] ends the same way, with the same
    value or exception, the same file system (so the same archive) and
    the same output. *)
Theorem encrypt_folder_password_irrelevant L folder_path password1 password2 w :
  encrypt_folder L folder_path password1 w = encrypt_folder L folder_path password2 w.
Proof. reflexivity. Qed.

(** C1, at the failing input. The folder [out/doc] holds one text file and
    the password is [s3cret]: the archive left at [out/doc.zip] has the
    file as a member that is not encrypted and is read without any
    password. The folder [out/bare] holds no file: the call returns an
    archive that carries no password either. Another password gives the
    same result. *)
Theorem packaging_applies_no_password :
  let run := encrypt_folder sample_libs ["out"; "doc"] "s3cret" sample_world in
  let bare := encrypt_folder sample_libs ["out"; "bare"] "s3cret" sample_world in
  (∃ item,
     fs run.2 !! ["out"; "doc.zip"] = Some (File (Archive [item])) ∧
     filename (member_info item) = "text/extracted_text.txt" ∧
     Zipfile.is_encrypted (member_info item) = false ∧
     Zipfile.read item None = Ok (Bytes "0123456789")) ∧
  bare.1 = Ok ["out"; "bare.zip"] ∧
  fs bare.2 !! ["out"; "bare.zip"] = Some (File (Archive [])) ∧
  encrypt_folder sample_libs ["out"; "doc"] "another" sample_world = run.
Proof.
  intros run bare. split; [| by repeat split].
  exists (Member (mk_ZipInfo "text/extracted_text.txt" (PyInt ZIP_DEFLATED) 0)
            (Bytes "0123456789")).
  by repeat split.
Qed.

(** C2, at the failing input. For the folder [out/doc] with its one text
    file, [encrypt_folder] does not return an archive: the second pass
    raises [NotImplementedError]. The first archive stays at
    [out/doc.zip], an empty temporary archive at [out/doc_temp.zip]. *)
Theorem packaging_a_file_raises :
  let run := encrypt_folder sample_libs ["out"; "doc"] "s3cret" sample_world in
  run.1 = Raise (mk_exn NotImplementedError "That compression method is not supported") ∧
  fs run.2 !! ["out"; "doc.zip"] =
    Some (File (Archive
                  [Member (mk_ZipInfo "text/extracted_text.txt" (PyInt ZIP_DEFLATED) 0)
                          (Bytes "0123456789")])) ∧
  fs run.2 !! ["out"; "doc_temp.zip"] = Some (File (Archive [])) ∧
  fs run.2 !! ["out"; "doc"; "text"; "extracted_text.txt"] =
    Some (File (Bytes "0123456789")).
Proof. by repeat split. Qed.

(** ** The source folder *)

Lemma rmtree_inv_Ok p w u w' :
  rmtree p w = (Ok u, w') →
  p ≠ [] ∧ stat w p = Some Dir ∧
  w' = set_fs (filter (fun kv => ¬ p `prefix_of` kv.1)) w.
Proof.
  unfold rmtree. destruct (stat w p) as [[c|]|]; [by intros [=] | | by intros [=]].
  destruct p; by intros [=].
Qed.







(** * Further properties of the pipeline *)

(** ** Packaging *)

Lemma encrypt_folder_raises_on_files_witness :
  ∃ e w', encrypt_folder sample_libs ["out"; "doc"] "s3cret" sample_world = (Raise e, w').
Proof.
  apply (encrypt_folder_raises_on_files sample_libs ["out"; "doc"] "s3cret" sample_world
           ["out"; "doc"; "text"; "extracted_text.txt"] (Bytes "0123456789")).
  - by exists ["text"; "extracted_text.txt"].
  - discriminate.
  - reflexivity.
Defined.

Lemma encrypt_folder_never_encrypts_witness :
  let run := encrypt_folder sample_libs ["out"; "doc"] "s3cret" sample_world in
  let ms := [Member (mk_ZipInfo "text/extracted_text.txt" (PyInt ZIP_DEFLATED) 0)
               (Bytes "0123456789")] in
  fs sample_world !! ["out"; "doc.zip"] = Some (File (Archive ms)) ∨ Forall unencrypted ms.
Proof.
  intros run ms.
  apply (encrypt_folder_never_encrypts sample_libs ["out"; "doc"] "s3cret" sample_world
           run.1 run.2 ["out"; "doc.zip"] ms).
  - unfold run. by destruct (encrypt_folder _ _ _ _).
  - reflexivity.
Defined.






Lemma write_file_run p c w :
  p ≠ [] → stat w p ≠ Some Dir → check_parent p w = None →
  write_file p c w = (Ok tt, set_fs <[p := File c]> w).
Proof.
  intros Hp Hdir Hparent. unfold write_file.
  destruct (stat w p) as [[c0|]|]; [done | done |]. by rewrite Hparent.
Qed.









(** ** Successful extraction *)

Lemma cleanup_always_raises {A} O e w (r : result A) w' :
  (rmtree O ;; raise e) w = (r, w') → ∃ e', r = Raise e'.
Proof.
  unfold bind, rmtree, raise.
  destruct (stat w O) as [[c|]|]; [| destruct O |]; intros [= <- _]; by eexists.
Qed.

(** A run of [extract_content] that returns: the input is there, its
    handler ran to the end in the folders just made. *)
Lemma extract_content_Ok_inv L input out w O w1 :
  extract_content L input out w = (Ok O, w1) →
  O = output_folder_of input out ∧ stat w input ≠ None ∧
  ∃ extract wm,
    select_handler L input = Some extract ∧
    make_folders O w = (Ok tt, wm) ∧
    extract input (O // "text") (O // "images") wm = (Ok tt, w1).
Proof.
  intros E. destruct (stat w input) as [n|] eqn:Hin.
  2: { by rewrite (extract_content_missing L _ out _ Hin) in E. }
  assert (stat w input ≠ None) as Hfound by congruence.
  destruct (select_handler L input) as [extract|] eqn:Hsel.
  2: { by rewrite (extract_content_unsupported L _ out _ Hfound Hsel) in E. }
  rewrite (extract_content_supported L _ out _ _ Hfound Hsel) in E.
  apply bind_inv_Ok in E as ([] & wm & Hmk & E).
  apply bind_inv_Ok in E as ([] & wb & Htry & E).
  injection E as <- <-. split; [done |]. split; [done |].
  exists extract, wm. split; [done |]. split; [done |].
  unfold try_except in Htry.
  destruct (extract _ _ _ wm) as [[[]|e] wc] eqn:Hrun.
  - by injection Htry as <-.
  - by apply cleanup_always_raises in Htry as [e' [=]].
Qed.

(** X9. When [extract_content] returns, what it returns is the output
    directory joined with the stem of the input name, which is the output
    directory itself when the stem is a single dot; for a folder without
    a component [..], that folder and its [text] and [images] subfolders
    are then directories; and the input existed and has a recognized
    suffix. *)
Theorem extract_content_returns_the_folder L input out w O w1 :
  plain (output_folder_of input out) →
  extract_content L input out w = (Ok O, w1) →
  O = out // Path.stem input ∧
  stat w1 O = Some Dir ∧
  stat w1 (O // "text") = Some Dir ∧
  stat w1 (O // "images") = Some Dir ∧
  stat w input ≠ None ∧
  file_ext input ∈ recognized.
Proof.
  intros _ E.
  apply extract_content_Ok_inv in E as (-> & Hin & extract & wm & Hsel & Hmk & Hrun).
  pose proof (handler_dirs_kept L _ _ _ _ _ Hsel _ _ _ Hrun) as Hkept.
  apply make_folders_Ok in Hmk as (HO & HT & HI).
  repeat split; auto.
  destruct (decide (file_ext input ∈ recognized)) as [|Hext]; [done |].
  apply (not_recognized_no_handler L) in Hext.
  unfold select_handler in Hsel. congruence.
Qed.

Lemma extract_content_returns_the_folder_witness :
  let run := extract_content sample_libs ["in"; "report.pdf"] ["out"] sample_world in
  ["out"; "report"] = ["out"] // Path.stem ["in"; "report.pdf"] ∧
  stat run.2 ["out"; "report"] = Some Dir ∧
  stat run.2 (["out"; "report"] // "text") = Some Dir ∧
  stat run.2 (["out"; "report"] // "images") = Some Dir ∧
  stat sample_world ["in"; "report.pdf"] ≠ None ∧
  file_ext ["in"; "report.pdf"] ∈ recognized.
Proof.
  intros run.
  apply (extract_content_returns_the_folder sample_libs ["in"; "report.pdf"] ["out"]
           sample_world ["out"; "report"] run.2).
  - apply (bool_decide_unpack _). vm_compute. exact I.
  - assert (run.1 = Ok ["out"; "report"]) as Hres by reflexivity.
    revert Hres. unfold run. destruct (extract_content _ _ _ _) as [r w1]. simpl.
    by intros ->.
Defined.

(** ** The runs of [main] *)


Lemma main_encrypt_fails L args w O w1 e w2 :
  extract_content L (input_file args) (output args) (announced (input_file args) w) =
    (Ok O, w1) →
  encrypt_folder L O (choose_password L (password args)) w1 = (Raise e, w2) →
  main L args w = (1, reported (exn_msg e) w2).
Proof.
  intros H1 H2. unfold main. unfold bind at 1.
  change (print _ w) with (Ok tt, announced (input_file args) w). simpl.
  unfold bind at 1. rewrite H1. unfold bind at 1. by rewrite H2.
Qed.

(** A run of [main] with status 0, step by step. *)
Lemma main_status_zero_inv L args w w' :
  main L args w = (0, w') →
  ∃ O w1 w2,
    extract_content L (input_file args) (output args) (announced (input_file args) w) =
      (Ok O, w1) ∧
    encrypt_folder L O (choose_password L (password args)) w1 = (Ok (zip_path_of O), w2) ∧
    stat w2 O = Some Dir ∧
    fs w' = filter (fun kv => ¬ O `prefix_of` kv.1) (fs w2) ∧
    stdout w' = stdout w2 ++
      [ "Successfully processed " +:+ Path.str (input_file args);
        "Encrypted output: " +:+ Path.str (zip_path_of O);
        "Password: " +:+ choose_password L (password args);
        "Please save this password securely as it cannot be recovered!" ] ∧
    O ≠ [].
Proof.
  intros Hmain. unfold main in Hmain.
  match type of Hmain with
  | match ?m w with _ => _ end = _ => destruct (m w) as [[u|e] w3] eqn:E
  end.
  2: { by destruct (print _ w3). }
  injection Hmain as <-.
  apply bind_inv_Ok in E as (u0 & w0 & Hprint & E).
  injection Hprint as _ <-. fold (announced (input_file args) w) in E.
  apply bind_inv_Ok in E as (O & w1 & Hext & E).
  apply bind_inv_Ok in E as (z & w2 & Henc & E).
  pose proof (encrypt_folder_Ok _ _ _ _ _ _ Henc) as [-> _].
  apply bind_inv_Ok in E as (u1 & wr & Hrm & E).
  apply rmtree_inv_Ok in Hrm as (HO & Hdir & ->).
  exists O, w1, w2. split; [done |]. split; [done |]. split; [done |].
  unfold bind, print in E. injection E as _ <-. simpl.
  split; [done |]. split; [| done]. by rewrite <- !app_assoc.
Qed.

Lemma encrypt_folder_Ok_no_files L folder pw w z w' :
  encrypt_folder L folder pw w = (Ok z, w') →
  ∀ q c, folder `prefix_of` q → q ≠ folder → fs w !! q ≠ Some (File c).
Proof.
  intros E q c Hpre Hne Hq.
  pose proof (walked_nonempty L _ _ _ _ Hpre Hne Hq) as Hwalked.
  by apply encrypt_folder_run in E
    as [(e & [=] & _)|[(e & [=] & _)|[(_ & _ & e & [=] & _)|[(? & _)|(? & _)]]]].
Qed.



(** X6. When extraction has returned a folder that is not the working
    directory and has no component [..], and packaging then fails, [main]
    exits with status 1 after printing the error, and does not clean up:
    every entry at or below the output folder is as extraction left
    it. *)
Theorem main_keeps_the_folder_when_packaging_fails L args w O w1 e w2 :
  O ≠ [] →
  plain O →
  extract_content L (input_file args) (output args) (announced (input_file args) w) =
    (Ok O, w1) →
  encrypt_folder L O (choose_password L (password args)) w1 = (Raise e, w2) →
  main L args w = (1, reported (exn_msg e) w2) ∧
  ∀ q, O `prefix_of` q → fs (reported (exn_msg e) w2) !! q = fs w1 !! q.
Proof.
  intros HO _ Hext Henc. split; [by apply (main_encrypt_fails L args w O w1) |].
  intros q Hq. simpl.
  apply encrypt_folder_frame in Henc as [_ Hsame]. apply Hsame; intros ->.
  - by apply (add_suffix_not_below O ".zip").
  - by apply (add_suffix_not_below O "_temp.zip").
Qed.

(** X7. [main] exits with status 0 only when extraction wrote nothing:
    after a run with status 0, extraction had returned a folder with no
    file anywhere below it. *)
Theorem main_succeeds_only_on_empty_output L args w w' :
  main L args w = (0, w') →
  ∃ O w1,
    extract_content L (input_file args) (output args) (announced (input_file args) w) =
      (Ok O, w1) ∧
    ∀ q c, O `prefix_of` q → fs w1 !! q ≠ Some (File c).
Proof.
  intros Hmain.
  apply main_status_zero_inv in Hmain as (O & w1 & w2 & Hext & Henc & _ & _ & _ & HO).
  exists O, w1. split; [done |]. intros q c Hq Hfile.
  destruct (decide (q = O)) as [->|Hne].
  - apply extract_content_Ok_inv in Hext as (-> & _ & extract & wm & Hsel & Hmk & Hrun).
    pose proof (handler_dirs_kept L _ _ _ _ _ Hsel _ _ _ Hrun) as Hkept.
    apply make_folders_Ok in Hmk as (Hdir & _). apply Hkept in Hdir.
    rewrite stat_nonempty in Hdir by done. congruence.
  - by apply (encrypt_folder_Ok_no_files _ _ _ _ _ _ Henc q c).
Qed.

Lemma main_keeps_the_folder_when_packaging_fails_witness :
  let args := mk_Args ["in"; "report.pdf"] ["out"] None in
  let extraction :=
    extract_content sample_libs (input_file args) (output args)
      (announced (input_file args) sample_world) in
  let packaging :=
    encrypt_folder sample_libs ["out"; "report"]
      (choose_password sample_libs (password args)) extraction.2 in
  let e := mk_exn NotImplementedError "That compression method is not supported" in
  main sample_libs args sample_world = (1, reported (exn_msg e) packaging.2) ∧
  ∀ q, ["out"; "report"] `prefix_of` q →
       fs (reported (exn_msg e) packaging.2) !! q = fs extraction.2 !! q.
Proof.
  intros args extraction packaging e.
  apply (main_keeps_the_folder_when_packaging_fails sample_libs args sample_world
           ["out"; "report"] extraction.2 e packaging.2).
  - discriminate.
  - apply (bool_decide_unpack _). vm_compute. exact I.
  - assert (extraction.1 = Ok ["out"; "report"]) as Hres by reflexivity.
    revert Hres. unfold extraction. destruct (extract_content _ _ _ _) as [r w1]. simpl.
    by intros ->.
  - assert (packaging.1 = Raise e) as Hres by reflexivity.
    revert Hres. unfold packaging. destruct (encrypt_folder _ _ _ _) as [r w2]. simpl.
    by intros ->.
Defined.

Lemma main_succeeds_only_on_empty_output_witness :
  let args := mk_Args ["in"; "scan.pdf"] ["out"] None in
  ∃ O w1,
    extract_content sample_libs (input_file args) (output args)
      (announced (input_file args) sample_world) = (Ok O, w1) ∧
    ∀ q c, O `prefix_of` q → fs w1 !! q ≠ Some (File c).
Proof.
  intros args.
  assert ((main sample_libs args sample_world).1 = 0) as Hstatus
    by (vm_compute; reflexivity).
  apply (main_succeeds_only_on_empty_output sample_libs args sample_world
           (main sample_libs args sample_world).2).
  revert Hstatus. destruct (main _ _ _) as [status w']. simpl. by intros ->.
Defined.

(** ** Inputs that are never packaged *)

#[local] Instance files_kept_preorder : PreOrder files_kept.
Proof.
  split; [intros w q c; eauto |].
  intros w1 w2 w3 H12 H23 q c Hq. destruct (H12 q c Hq) as [c' Hq']. eauto.
Qed.

Lemma files_kept_stdout w out : files_kept w (mk_world (fs w) out).
Proof. intros q c Hq. eauto. Qed.

Lemma files_kept_put w p c : files_kept w (set_fs <[p := File c]> w).
Proof.
  intros q c0 Hq. simpl. destruct (decide (p = q)) as [->|Hne].
  - rewrite lookup_insert_eq. eauto.
  - rewrite lookup_insert_ne by done. eauto.
Qed.

Lemma select_handler_txt L p :
  file_ext p = ".txt" → select_handler L p = Some (_extract_txt L).
Proof.
  unfold select_handler, supported_formats. intros ->.
  rewrite !(lookup_insert_ne _ _ ".txt") by done. apply lookup_insert_eq.
Qed.

Lemma select_handler_image L p :
  file_ext p ∈ image_suffixes → select_handler L p = Some (_extract_image L).
Proof.
  unfold select_handler, supported_formats, image_suffixes. intros H.
  repeat (apply elem_of_cons in H as [->|H];
          [rewrite ?lookup_insert_ne by done; apply lookup_insert_eq |]).
  by apply elem_of_nil in H.
Qed.

(** When the text handler returns, the text file is there. *)
Lemma extract_txt_Ok L f t i w u w' :
  _extract_txt L f t i w = (Ok u, w') →
  fs w' !! (t // "extracted_text.txt") = Some (File (Bytes (decode_ignore L
    match stat w f with Some (File c) => c | _ => Bytes EmptyString end))).
Proof.
  unfold _extract_txt. intros E.
  apply bind_inv_Ok in E as (c & w1 & Hread & Hwrite).
  unfold read_file in Hread. destruct (stat w f) as [[c0|]|]; try done.
  injection Hread as <- <-.
  apply write_file_Ok in Hwrite as [-> _]. simpl. apply lookup_insert_eq.
Qed.

(** When [copy2] returns, the copy is a file at the target or, if the
    target was a directory, inside it, with the content of the source. *)
Lemma copy2_Ok src dst w u w' :
  copy2 src dst w = (Ok u, w') →
  ∃ d c, (d = dst ∨ d = dst // Path.basename src) ∧
         stat w src = Some (File c) ∧
         stat w d ≠ Some Dir ∧
         w' = set_fs <[d := File c]> w.
Proof.
  unfold copy2. destruct (_ && _); [done |]. intros E.
  apply bind_inv_Ok in E as (c & w1 & Hread & Hwrite).
  unfold read_file in Hread. destruct (stat w src) as [[c0|]|] eqn:Hsrc; try done.
  injection Hread as <- <-.
  assert (stat w (if is_dir dst w then dst // Path.basename src else dst) ≠ Some Dir)
    as Hdir.
  { intros Hd. unfold write_file in Hwrite. by rewrite Hd in Hwrite. }
  apply write_file_Ok in Hwrite as [-> _].
  eexists _, c0. split; [| done]. destruct (is_dir dst w); auto.
Qed.

(** The OCR part of the image handler never removes a file and always
    ends normally. *)
Lemma ocr_part L f t w r w' :
  try_except
    (let* image := read_file f in
     let* text := lift (image_to_string L image) in
     if Str.truthy (Str.strip text)
     then write_file (t // "extracted_text.txt") (Bytes text)
     else ret tt)
    (fun e => print ("Warning: OCR failed for " +:+ Path.name f +:+ ": " +:+ exn_msg e)) w =
    (r, w') →
  r = Ok tt ∧ files_kept w w'.
Proof.
  intros E. split; [by apply try_except_print_Ok in E |].
  revert E. apply respects_try_except; [apply _ | |].
  - apply respects_bind; [apply _ | apply respects_read_file; apply _ | intros c].
    apply respects_bind; [apply _ | apply respects_lift; apply _ | intros text].
    destruct (Str.truthy _); [| apply respects_ret; apply _].
    apply (respects_write_file files_kept (fun _ => True)
             (fun w p c _ _ => files_kept_put w p c)). exact I.
  - intros e. apply respects_print. apply files_kept_stdout.
Qed.

(** When the image handler returns from an images folder that is a
    directory, a copy of the input is below the images folder. *)
Lemma extract_image_Ok L f t i w u w' :
  stat w i = Some Dir →
  _extract_image L f t i w = (Ok u, w') →
  ∃ q c, i `prefix_of` q ∧ q ≠ i ∧ fs w' !! q = Some (File c).
Proof.
  unfold _extract_image. intros Hi E.
  apply bind_inv_Ok in E as (u1 & w1 & Hcopy & Hocr).
  apply copy2_Ok in Hcopy as (d & c & Hd & _ & Hdir & ->).
  apply ocr_part in Hocr as [_ Hkept].
  destruct (Hkept d c) as [c' Hc']; [simpl; apply lookup_insert_eq |].
  exists d, c'. split; [| split; [| done]].
  - destruct Hd as [->| ->]; [apply join_prefix | apply join_below, join_prefix].
  - intros ->. by rewrite Hi in Hdir.
Qed.

Lemma main_status L args w : (main L args w).1 = 0 ∨ (main L args w).1 = 1.
Proof.
  unfold main.
  match goal with
  | |- context [match ?m w with _ => _ end] => destruct (m w) as [[u|e] w3]
  end; [by left | right]. by destruct (print _ w3).
Qed.

(** X8. A text file or an image is never packaged: for an input whose
    suffix is [.txt] or one of the image suffixes, [main] exits with status
    1, whatever the file holds and whatever the libraries answer. When
    extraction itself works, its handler always leaves a file in the
    output folder, and [encrypt_folder] fails on every folder that holds a
    file. *)
Theorem main_fails_on_text_and_images L args w :
  file_ext (input_file args) = ".txt" ∨ file_ext (input_file args) ∈ image_suffixes →
  (main L args w).1 = 1.
Proof.
  intros Hext. destruct (main_status L args w) as [H0|H1]; [| done]. exfalso.
  destruct (main L args w) as [status w'] eqn:Hmain. simpl in H0. subst status.
  apply main_status_zero_inv in Hmain as (O & w1 & w2 & Hextract & Henc & _).
  apply extract_content_Ok_inv in Hextract as (-> & _ & extract & wm & Hsel & Hmk & Hrun).
  set (O := output_folder_of (input_file args) (output args)) in *.
  apply make_folders_Ok in Hmk as (_ & _ & HI).
  assert (∃ q c, O `prefix_of` q ∧ q ≠ O ∧ fs w1 !! q = Some (File c))
    as (q & c & Hq & Hne & Hfile).
  { destruct Hext as [Htxt|Himg].
    - rewrite (select_handler_txt L _ Htxt) in Hsel. injection Hsel as <-.
      apply extract_txt_Ok in Hrun. eexists _, _.
      split; [| split; [| exact Hrun]].
      + by do 2 apply join_below.
      + rewrite !join_name by done. intros Heq. apply (f_equal length) in Heq.
        rewrite !length_app in Heq. simpl in Heq. lia.
    - rewrite (select_handler_image L _ Himg) in Hsel. injection Hsel as <-.
      apply (extract_image_Ok _ _ _ _ _ _ _ HI) in Hrun as (q & c & [k Hk] & Hne & Hfile).
      exists q, c. split; [| split; [| done]].
      + rewrite Hk. etrans; [apply (join_prefix O "images") | by eexists].
      + rewrite Hk, (join_name O "images") by done. intros Heq.
        apply (f_equal length) in Heq.
        rewrite !length_app in Heq. simpl in Heq. lia. }
  by apply (encrypt_folder_Ok_no_files _ _ _ _ _ _ Henc q c).
Qed.

Lemma main_fails_on_text_and_images_witness :
  (main office_libs (mk_Args ["in"; "memo.txt"] ["out"] (Some "s3cret")) office_world).1 = 1.
Proof.
  apply (main_fails_on_text_and_images office_libs
           (mk_Args ["in"; "memo.txt"] ["out"] (Some "s3cret")) office_world).
  left. reflexivity.
Defined.

(** ** Effects confined to a set of paths *)

Lemma parent_prefix p : Path.parent p `prefix_of` p.
Proof.
  destruct p as [|x p _] using rev_ind; [done |].
  unfold Path.parent. rewrite removelast_last. by eexists.
Qed.

Section Confined.

Context (L : Libs) (P : path → Prop).
Context (R : world → world → Prop) `{!PreOrder R}.

(** [R] lets lines be printed, and lets the file system change in any way
    within [P]. *)
Hypothesis R_print : ∀ w line, R w (mk_world (fs w) (stdout w ++ [line])).
Hypothesis R_confined :
  ∀ w f, (∀ q, ¬ P q → f (fs w) !! q = fs w !! q) → R w (set_fs f w).

Lemma confined_insert w p n : P p → R w (set_fs <[p := n]> w).
Proof.
  intros Hp. apply R_confined. intros q Hq. apply lookup_insert_ne. congruence.
Qed.

Lemma confined_print line : respects R (print line).
Proof. intros w r w' [= _ <-]. apply R_print. Qed.

Lemma confined_write_file p c : P p → respects R (write_file p c).
Proof.
  apply (respects_write_file R P (fun w p c Hp _ => confined_insert w p (File c) Hp)).
Qed.

Lemma confined_copy2 src dst :
  P dst → P (dst // Path.basename src) → respects R (copy2 src dst).
Proof.
  apply (respects_copy2 R P (fun w p c Hp _ => confined_insert w p (File c) Hp)).
Qed.

Lemma confined_os_mkdir p : P p → respects R (os_mkdir p).
Proof.
  intros Hp w r w'. unfold os_mkdir.
  destruct (stat w p); [intros [= _ <-]; reflexivity |].
  destruct (check_parent p w); intros [= _ <-]; [reflexivity |].
  by apply confined_insert.
Qed.


Lemma confined_mkdir_child fuel p exist_ok :
  P p → respects R (mkdir_fuel fuel p false exist_ok).
Proof.
  intros Hp w r w'.
  destruct fuel as [|fuel]; simpl; destruct (os_mkdir p w) as [[u|e] w1] eqn:E.
  all: try (intros [= _ <-]; by apply (confined_os_mkdir p Hp _ _ _ E)).
  all: apply os_mkdir_Raise in E as ->.
  all: destruct (exn_cls e); try (intros [= _ <-]; reflexivity);
       destruct (_ || _); intros [= _ <-]; reflexivity.
Qed.

Lemma confined_rmtree p : (∀ q, p `prefix_of` q → P q) → respects R (rmtree p).
Proof.
  intros Hp w r w'. unfold rmtree.
  assert (R w (set_fs (filter (fun kv : path * node => ¬ p `prefix_of` kv.1)) w)) as Hgone.
  { apply R_confined. intros q Hq.
    pose proof (rmtree_lookup p w q) as Hl. simpl in Hl. rewrite Hl.
    case_decide as Hpre; [| done]. by destruct Hq; apply Hp. }
  destruct (stat w p) as [[c|]|]; [| destruct p |]; intros [= _ <-];
    first [exact Hgone | reflexivity].
Qed.

Section InFolders.

Context (t i : path).
Hypothesis Ht : ∀ q, t `prefix_of` q → P q.
Hypothesis Hi : ∀ q, i `prefix_of` q → P q.

Local Ltac below :=
  first [ apply Ht; repeat apply join_below; reflexivity
        | apply Hi; repeat apply join_below; reflexivity ].

Local Ltac confined :=
  first
    [ apply respects_ret; solve [apply _]
    | apply respects_raise; solve [apply _]
    | apply respects_lift; solve [apply _]
    | apply confined_print
    | apply respects_read_file; solve [apply _]
    | apply confined_write_file; below
    | apply confined_copy2; below
    | apply respects_bind; [apply _ | | intros ?]
    | apply respects_try_except; [apply _ | | intros ?]
    | apply respects_for_each; [apply _ | intros ?]
    | match goal with
      | |- respects _ (if ?b then _ else _) => destruct b
      | |- respects _ (match ?x with _ => _ end) => destruct x
      end ].

Lemma confined_extract_pdf f : respects R (_extract_pdf L f t i).
Proof. unfold _extract_pdf. repeat confined. Qed.

Lemma confined_docx_images rels n : respects R (docx_images i rels n).
Proof.
  revert n. induction rels as [|rel rels IH]; intros n; simpl; repeat confined; apply IH.
Qed.

Lemma confined_extract_docx f : respects R (_extract_docx L f t i).
Proof. unfold _extract_docx. repeat confined; apply confined_docx_images. Qed.

Lemma confined_pptx_shape_images k shapes n : respects R (pptx_shape_images i k shapes n).
Proof.
  revert n. induction shapes as [|s shapes IH]; intros n; simpl; repeat confined; apply IH.
Qed.

Lemma confined_pptx_images slides n : respects R (pptx_images i slides n).
Proof.
  revert n. induction slides as [|[k shapes] slides IH]; intros n; simpl; repeat confined.
  - apply confined_pptx_shape_images.
  - apply IH.
Qed.

Lemma confined_extract_pptx f : respects R (_extract_pptx L f t i).
Proof. unfold _extract_pptx. repeat confined; apply confined_pptx_images. Qed.

Lemma confined_extract_txt f : respects R (_extract_txt L f t i).
Proof. unfold _extract_txt. repeat confined. Qed.

Lemma confined_extract_image f : respects R (_extract_image L f t i).
Proof. unfold _extract_image. repeat confined. Qed.

Lemma confined_handler ext h f :
  supported_formats L !! ext = Some h → respects R (h f t i).
Proof.
  intros H. apply supported_formats_values in H as [->|[->|[->|[->| ->]]]].
  - apply confined_extract_pdf.
  - apply confined_extract_docx.
  - apply confined_extract_pptx.
  - apply confined_extract_txt.
  - apply confined_extract_image.
Qed.

End InFolders.

(** [extract_content] as a whole: the first [mkdir] apart, all it does is
    at or below its output folder. *)
Lemma confined_extract_content input out :
  (∀ q, output_folder_of input out `prefix_of` q → P q) →
  respects R (mkdir (output_folder_of input out) true true) →
  respects R (extract_content L input out).
Proof.
  intros HP Hmk. unfold extract_content.
  fold (output_folder_of input out).
  assert (∀ name q, output_folder_of input out // name `prefix_of` q → P q) as Hsub.
  { intros name q Hq. apply HP. etransitivity; [| exact Hq]. apply join_prefix. }
  apply respects_bind; [apply _ | apply respects_exists; apply _ | intros found].
  destruct (negb found); [apply respects_raise; apply _ |].
  destruct (select_handler L input) as [extract|] eqn:Hsel;
    [| apply respects_raise; apply _].
  apply respects_bind; [apply _ | exact Hmk | intros _].
  apply respects_bind; [apply _ | | intros _].
  { apply confined_mkdir_child. apply (Hsub "text"). reflexivity. }
  apply respects_bind; [apply _ | | intros _].
  { apply confined_mkdir_child. apply (Hsub "images"). reflexivity. }
  apply respects_bind; [apply _ | | intros _; apply respects_ret; apply _].
  apply respects_try_except; [apply _ | |].
  - apply (confined_handler _ _ (Hsub "text") (Hsub "images") _ _ _ Hsel).
  - intros e. apply respects_bind; [apply _ | | intros _; apply respects_raise; apply _].
    by apply confined_rmtree.
Qed.

End Confined.

(** ** Where extraction writes *)

#[local] Instance made_dirs_preorder p : PreOrder (made_dirs p).
Proof.
  split; [intros w q; by left |].
  intros w1 w2 w3 H12 H23 q.
  destruct (H12 q) as [E12|(N1 & D2 & Hq)], (H23 q) as [E23|(N2 & D3 & Hq')].
  - left. congruence.
  - right. repeat split; [congruence | done | done].
  - right. repeat split; [done | congruence | done].
  - congruence.
Qed.

Lemma made_dirs_mkdir_fuel fuel p p' parents exist_ok :
  p `prefix_of` p' → respects (made_dirs p') (mkdir_fuel fuel p parents exist_ok).
Proof.
  revert p parents exist_ok.
  induction fuel as [|fuel IH]; intros p parents exist_ok Hp w r w'; simpl;
    destruct (os_mkdir p w) as [[u|e] w1] eqn:E.
  all: try (intros [= _ <-]; apply os_mkdir_Ok in E as [E ->]; intros q; simpl;
            destruct (decide (p = q)) as [<-|Hne];
            [right; rewrite lookup_insert_eq; destruct p; [done | by split] |
             left; by rewrite lookup_insert_ne]).
  all: apply os_mkdir_Raise in E as ->.
  - destruct (exn_cls e); try (intros [= _ <-]; reflexivity);
      destruct (_ || _); intros [= _ <-]; reflexivity.
  - destruct (exn_cls e).
    2-13: destruct (_ || _); intros [= _ <-]; reflexivity.
    destruct (_ || _); [intros [= _ <-]; reflexivity |].
    revert w r w'. apply respects_bind; [apply _ | | intros; by apply IH].
    apply IH. etransitivity; [apply parent_prefix | exact Hp].
Qed.

#[local] Instance only_ancestors_made_preorder O : PreOrder (only_ancestors_made O).
Proof.
  split; [intros w q _; by left |].
  intros w1 w2 w3 H12 H23 q Hq.
  destruct (H12 q Hq) as [E12|(N1 & D2 & Hp)], (H23 q Hq) as [E23|(N2 & D3 & Hp')].
  - left. congruence.
  - right. repeat split; [congruence | done | done].
  - right. repeat split; [done | congruence | done].
  - congruence.
Qed.

(** X10. [extract_content] stays in its output folder, the output
    directory joined with the stem of the input name: when that path has
    no component [..], whatever the outcome of a run, an entry that is not
    at or below the output folder is exactly as before, unless it is a
    directory on the way to the output folder that was missing and has
    been created. No file outside the folder is written, replaced or
    removed; the input, when it lies outside, is left untouched. *)
Theorem extract_content_stays_in_its_folder L input out w r w' q :
  plain (output_folder_of input out) →
  extract_content L input out w = (r, w') →
  ¬ output_folder_of input out `prefix_of` q →
  fs w' !! q = fs w !! q ∨
  (fs w !! q = None ∧ fs w' !! q = Some Dir ∧ q `prefix_of` output_folder_of input out).
Proof.
  intros _ E Hq. revert q Hq.
  change (only_ancestors_made (output_folder_of input out) w w').
  revert w r w' E.
  apply (confined_extract_content L
           (fun q => output_folder_of input out `prefix_of` q)
           (only_ancestors_made (output_folder_of input out))).
  - intros w line q _. by left.
  - intros w f Hf q Hq. left. by apply Hf.
  - done.
  - intros w r w' E q _. revert w r w' E q.
    change (respects (made_dirs (output_folder_of input out))
              (mkdir (output_folder_of input out) true true)).
    by apply made_dirs_mkdir_fuel.
Qed.

Lemma extract_content_stays_in_its_folder_witness :
  let run := extract_content sample_libs ["in"; "damaged.pdf"] ["out"] sample_world in
  let q := ["out"; "doc"; "text"; "extracted_text.txt"] in
  fs run.2 !! q = fs sample_world !! q ∨
  (fs sample_world !! q = None ∧ fs run.2 !! q = Some Dir ∧
   q `prefix_of` output_folder_of ["in"; "damaged.pdf"] ["out"]).
Proof.
  intros run q.
  apply (extract_content_stays_in_its_folder sample_libs ["in"; "damaged.pdf"] ["out"]
           sample_world run.1 run.2 q).
  - apply (bool_decide_unpack _). vm_compute. exact I.
  - unfold run. by destruct (extract_content _ _ _ _).
  - apply (bool_decide_unpack _). vm_compute. exact I.
Defined.

(** ** What [main] prints *)

#[local] Instance stdout_grows_preorder : PreOrder stdout_grows.
Proof.
  split; [intros w; exists []; by rewrite app_nil_r |].
  intros w1 w2 w3 [l12 H12] [l23 H23]. exists (l12 ++ l23).
  by rewrite H23, H12, app_assoc.
Qed.




(** ** Numbered names *)

Lemma decimal_value_of_nat n : decimal_value (Str.of_nat n) = Some n.
Proof.
  unfold decimal_value, Str.of_nat, NilZero.string_of_uint.
  pose proof (DecimalNat.Unsigned.of_to n) as Hn.
  destruct (Nat.to_uint n) eqn:E; [simpl; by rewrite <- Hn | ..];
    rewrite NilEmpty.usu; simpl; by rewrite <- Hn.
Qed.

Lemma decimal_value_zero s :
  decimal_value (String "0" s) = decimal_value s.
Proof.
  unfold decimal_value. simpl. by destruct (NilEmpty.uint_of_string s).
Qed.

(** A number is read back from its zero-padded form. *)
Lemma decimal_value_pad3 n : decimal_value (Str.pad3 n) = Some n.
Proof.
  unfold Str.pad3. pose proof (decimal_value_of_nat n) as H.
  destruct (String.length (Str.of_nat n)) as [|[|[|k]]]; [done | | | done].
  - change ("00" +:+ Str.of_nat n) with (String "0" (String "0" (Str.of_nat n))).
    by rewrite !decimal_value_zero.
  - change ("0" +:+ Str.of_nat n) with (String "0" (Str.of_nat n)).
    by rewrite decimal_value_zero.
Qed.

Lemma pad3_inj n m : Str.pad3 n = Str.pad3 m → n = m.
Proof.
  intros H. apply (f_equal decimal_value) in H.
  rewrite !decimal_value_pad3 in H. by injection H.
Qed.

Lemma append_inj_r s s' t : s +:+ t = s' +:+ t → s = s'.
Proof.
  revert s'. induction s as [|c s IH]; intros [|c' s']; simpl; intros H; try done.
  - apply (f_equal String.length) in H. rewrite !length_append in H. simpl in H. lia.
  - apply (f_equal String.length) in H. rewrite !length_append in H. simpl in H. lia.
  - injection H as -> H. by rewrite (IH _ H).
Qed.

Lemma docx_image_name_inj n m : docx_image_name n = docx_image_name m → n = m.
Proof.
  unfold docx_image_name. intros H%append_inj_l%append_inj_r. by apply pad3_inj.
Qed.

Lemma pdf_page_name_inj n m : pdf_page_name n = pdf_page_name m → n = m.
Proof.
  unfold pdf_page_name. intros H%append_inj_l%append_inj_r. by apply pad3_inj.
Qed.

(** ** DOCX *)

Lemma docx_text_loop acc paras :
  foldl (fun text_content para =>
           if Str.truthy (Str.strip para) then text_content ++ [para +:+ nl]
           else text_content)
        acc paras =
  acc ++ docx_lines paras.
Proof.
  revert acc. unfold docx_lines.
  induction paras as [|para rest IH]; intros acc; simpl; [by rewrite app_nil_r |].
  rewrite IH, strip_truthy. destruct (nonblankb para); [| done].
  simpl. by rewrite <- app_assoc.
Qed.

Lemma docx_text_content_lines paras : docx_text_content paras = docx_lines paras.
Proof. unfold docx_text_content. by rewrite docx_text_loop. Qed.

(** The image loop: each image relationship is written under the next
    number, and nothing else is touched. *)
Lemma docx_images_Ok i rels n w u w' :
  docx_images i rels n w = (Ok u, w') →
  (∀ k rel, image_rels rels !! k = Some rel →
            ∃ blob, target_blob rel = Ok blob ∧
                    fs w' !! (i // docx_image_name (n + S k)) = Some (File blob)) ∧
  (∀ q, (∀ j, (n < j)%nat → q ≠ i // docx_image_name j) → fs w' !! q = fs w !! q).
Proof.
  revert n w. induction rels as [|rel rels IH]; intros n w; simpl.
  - intros [= _ <-]. split; [by intros k rel' H | done].
  - unfold image_rels. simpl. fold (image_rels rels).
    destruct (Str.contains "image" (target_ref rel)) eqn:Himg.
    + intros E.
      apply bind_inv_Ok in E as (blob & w0 & Hblob & E).
      unfold lift in Hblob. injection Hblob as Hblob <-.
      apply bind_inv_Ok in E as (u1 & w1 & Hwrite & E).
      apply write_file_Ok in Hwrite as [-> _].
      destruct (IH _ _ E) as [Hfiles Hframe]. split.
      * intros [|k] rel' Hk; simpl in Hk.
        -- injection Hk as <-. exists blob. split; [done |].
           rewrite Hframe.
           ++ simpl. replace (n + 1)%nat with (S n) by lia. apply lookup_insert_eq.
           ++ intros j Hj [_ Heq]%app_inj_tail. apply docx_image_name_inj in Heq. lia.
        -- replace (n + S (S k))%nat with (S n + S k)%nat by lia. by apply Hfiles.
      * intros q Hq. rewrite Hframe by (intros j Hj; apply Hq; lia).
        simpl. apply lookup_insert_ne. apply not_eq_sym, Hq. lia.
    + intros E. destruct (IH _ _ E) as [Hfiles Hframe]. split; [done |].
      intros q Hq. apply Hframe. intros j Hj. apply Hq. lia.
Qed.

(** X12. When the DOCX handler returns, the text file holds the non-blank
    paragraphs in document order, each followed by a line feed, and
    nothing else; when every paragraph is blank the text file is not
    touched. *)
Theorem docx_text_is_the_nonblank_paragraphs L f t i w file doc u w' :
  stat w f = Some (File file) →
  Document L file = Ok doc →
  _extract_docx L f t i w = (Ok u, w') →
  fs w' !! (t // "extracted_text.txt") =
    if nonempty (List.filter nonblankb (paragraphs doc))
    then Some (File (Bytes (Str.join (map (fun para => para +:+ nl)
                                         (List.filter nonblankb (paragraphs doc))))))
    else fs w !! (t // "extracted_text.txt").
Proof.
  intros Hfile Hdoc E. unfold _extract_docx in E.
  unfold bind at 1, read_file in E. rewrite Hfile in E.
  unfold bind at 1, lift in E. rewrite Hdoc in E.
  apply bind_inv_Ok in E as (u1 & w1 & Htext & Himages).
  apply docx_images_Ok in Himages as [_ Hframe].
  rewrite Hframe.
  2: { intros j _. unfold Path.join, docx_image_name. simpl. by intros [_ [=]]%app_inj_tail. }
  rewrite docx_text_content_lines in Htext. unfold docx_lines in Htext.
  destruct (List.filter nonblankb (paragraphs doc)) as [|para rest]; simpl in *.
  - by injection Htext as _ <-.
  - apply write_file_Ok in Htext as [-> _]. simpl. apply lookup_insert_eq.
Qed.

(** X13. When the DOCX handler returns, the [k]-th relationship whose
    target mentions [image], in the order of the relationships, is stored
    in the images folder as [image_NNN.png], [NNN] being [k] counted from
    1 and padded to three digits, and the file holds that relationship's
    original bytes. *)
Theorem docx_images_are_numbered_copies L f t i w file doc u w' k rel :
  stat w f = Some (File file) →
  Document L file = Ok doc →
  _extract_docx L f t i w = (Ok u, w') →
  image_rels (rels doc) !! k = Some rel →
  ∃ blob, target_blob rel = Ok blob ∧
          fs w' !! (i // ("image_" +:+ Str.pad3 (S k) +:+ ".png")) = Some (File blob).
Proof.
  intros Hfile Hdoc E Hk. unfold _extract_docx in E.
  unfold bind at 1, read_file in E. rewrite Hfile in E.
  unfold bind at 1, lift in E. rewrite Hdoc in E.
  apply bind_inv_Ok in E as (u1 & w1 & _ & Himages).
  apply docx_images_Ok in Himages as [Hfiles _].
  by apply (Hfiles k rel).
Qed.

Lemma docx_text_is_the_nonblank_paragraphs_witness :
  let run := _extract_docx office_libs ["in"; "letter.docx"]
               ["out"; "work"; "text"] ["out"; "work"; "images"] office_world in
  fs run.2 !! (["out"; "work"; "text"] // "extracted_text.txt") =
    if nonempty (List.filter nonblankb (paragraphs office_letter))
    then Some (File (Bytes (Str.join (map (fun para => para +:+ nl)
                                         (List.filter nonblankb (paragraphs office_letter))))))
    else fs office_world !! (["out"; "work"; "text"] // "extracted_text.txt").
Proof.
  intros run.
  assert (run.1 = Ok tt) as Hres by reflexivity.
  apply (docx_text_is_the_nonblank_paragraphs office_libs ["in"; "letter.docx"]
           ["out"; "work"; "text"] ["out"; "work"; "images"] office_world
           (Bytes "docx bytes") office_letter tt run.2).
  - reflexivity.
  - reflexivity.
  - revert Hres. unfold run. destruct (_extract_docx _ _ _ _ _) as [r w']. simpl.
    by intros ->.
Defined.

Lemma docx_images_are_numbered_copies_witness :
  let run := _extract_docx office_libs ["in"; "letter.docx"]
               ["out"; "work"; "text"] ["out"; "work"; "images"] office_world in
  ∃ blob, target_blob (mk_rel "media/image2.jpeg" (Ok (Bytes "second picture"))) = Ok blob ∧
          fs run.2 !! (["out"; "work"; "images"] // ("image_" +:+ Str.pad3 2 +:+ ".png")) =
            Some (File blob).
Proof.
  intros run.
  assert (run.1 = Ok tt) as Hres by reflexivity.
  apply (docx_images_are_numbered_copies office_libs ["in"; "letter.docx"]
           ["out"; "work"; "text"] ["out"; "work"; "images"] office_world
           (Bytes "docx bytes") office_letter tt run.2 1).
  - reflexivity.
  - reflexivity.
  - revert Hres. unfold run. destruct (_extract_docx _ _ _ _ _) as [r w']. simpl.
    by intros ->.
  - reflexivity.
Defined.

(** ** PPTX *)

Lemma pptx_shape_loop acc shapes :
  foldl (fun text_content shape =>
           match shape_text shape with
           | Some text =>
               if Str.truthy (Str.strip text)
               then text_content ++ [text +:+ nl] else text_content
           | None => text_content
           end)
        acc shapes =
  acc ++ shape_lines shapes.
Proof.
  revert acc. unfold shape_lines.
  induction shapes as [|shape rest IH]; intros acc; simpl; [by rewrite app_nil_r |].
  rewrite IH. destruct (shape_text shape) as [text|]; [| done].
  rewrite strip_truthy. destruct (nonblankb text); [| done].
  simpl. by rewrite <- app_assoc.
Qed.

Lemma pptx_slide_loop acc start slides :
  foldl (fun text_content (p : nat * list pptx_shape) =>
           let '(slide_num, shapes) := p in
           let text_content :=
             text_content ++ ["--- Slide " +:+ Str.of_nat slide_num +:+ " ---" +:+ nl] in
           let text_content :=
             foldl (fun text_content shape =>
                      match shape_text shape with
                      | Some text =>
                          if Str.truthy (Str.strip text)
                          then text_content ++ [text +:+ nl] else text_content
                      | None => text_content
                      end)
                   text_content shapes in
           text_content ++ [nl])
        acc (enumerate start slides) =
  acc ++ deck_lines_from start slides.
Proof.
  revert acc start. unfold deck_lines_from.
  induction slides as [|shapes rest IH]; intros acc start; simpl; [by rewrite app_nil_r |].
  rewrite IH, pptx_shape_loop. unfold slide_lines. simpl.
  by rewrite <- !app_assoc.
Qed.

Lemma pptx_text_content_lines slides :
  pptx_text_content slides = deck_lines_from 1 slides.
Proof. unfold pptx_text_content. by rewrite pptx_slide_loop. Qed.

Lemma pptx_shape_images_frame i k shapes n :
  respects (same_outside (pptx_image_path i)) (pptx_shape_images i k shapes n).
Proof.
  revert n. induction shapes as [|shape rest IH]; intros n; simpl.
  - apply respects_ret. apply _.
  - destruct (shape_image shape); [| apply IH].
    apply respects_bind; [apply _ | | intros _; apply IH].
    apply write_file_same_outside. by eexists _, _.
Qed.

Lemma pptx_images_frame i slides n :
  respects (same_outside (pptx_image_path i)) (pptx_images i slides n).
Proof.
  revert n. induction slides as [|[k shapes] rest IH]; intros n; simpl.
  - apply respects_ret. apply _.
  - apply respects_bind; [apply _ | apply pptx_shape_images_frame | intros m; apply IH].
Qed.

(** X14. When the PPTX handler returns for a deck with at least one slide,
    the text file holds, for each slide in order, the header
    [--- Slide N ---] with [N] counted from 1, then the text of each shape
    that has non-blank text followed by a line feed, then an empty line:
    the file is written even when no shape has any text. For a deck with
    no slide the text file is not touched. *)
Theorem pptx_text_has_a_block_per_slide L f t i w file slides u w' :
  stat w f = Some (File file) →
  Presentation L file = Ok slides →
  _extract_pptx L f t i w = (Ok u, w') →
  fs w' !! (t // "extracted_text.txt") =
    if nonempty slides
    then Some (File (Bytes (Str.join (deck_lines_from 1 slides))))
    else fs w !! (t // "extracted_text.txt").
Proof.
  intros Hfile Hprs E. unfold _extract_pptx in E.
  unfold bind at 1, read_file in E. rewrite Hfile in E.
  unfold bind at 1, lift in E. rewrite Hprs in E.
  apply bind_inv_Ok in E as (u1 & w1 & Htext & Himages).
  rewrite (pptx_images_frame _ _ _ _ _ _ Himages).
  2: { intros (k & c & Heq). unfold Path.join in Heq. simpl in Heq.
       by apply app_inj_tail in Heq as [_ [=]]. }
  rewrite pptx_text_content_lines in Htext.
  destruct slides as [|shapes rest]; simpl in *.
  - by injection Htext as _ <-.
  - apply write_file_Ok in Htext as [-> _]. simpl. apply lookup_insert_eq.
Qed.

Lemma pptx_text_has_a_block_per_slide_witness :
  let run := _extract_pptx office_libs ["in"; "deck.pptx"]
               ["out"; "work"; "text"] ["out"; "work"; "images"] office_world in
  fs run.2 !! (["out"; "work"; "text"] // "extracted_text.txt") =
    if nonempty office_deck
    then Some (File (Bytes (Str.join (deck_lines_from 1 office_deck))))
    else fs office_world !! (["out"; "work"; "text"] // "extracted_text.txt").
Proof.
  intros run.
  assert (run.1 = Ok tt) as Hres by reflexivity.
  apply (pptx_text_has_a_block_per_slide office_libs ["in"; "deck.pptx"]
           ["out"; "work"; "text"] ["out"; "work"; "images"] office_world
           (Bytes "pptx bytes") office_deck tt run.2).
  - reflexivity.
  - reflexivity.
  - revert Hres. unfold run. destruct (_extract_pptx _ _ _ _ _) as [r w']. simpl.
    by intros ->.
Defined.

(** ** Images and the OCR engine *)

Lemma check_parent_join p name w :
  Path.is_dot name = false → stat w p = Some Dir → check_parent (p // name) w = None.
Proof. intros Hn H. unfold check_parent. by rewrite parent_join, H. Qed.

(** X15. The image handler copies the input byte for byte into the images
    folder under its own name, and the OCR step cannot make it fail: with
    the images folder in place, the handler returns normally whatever the
    OCR engine does, the copy holds the content of the input, and when the
    engine raises, the only other effect is one warning line. *)
Theorem image_is_copied_whatever_the_ocr_does L f t i w c :
  stat w f = Some (File c) →
  stat w i = Some Dir →
  stat w (i // Path.name f) ≠ Some Dir →
  f ≠ i // Path.name f →
  t // "extracted_text.txt" ≠ i // Path.name f →
  ∃ w',
    _extract_image L f t i w = (Ok tt, w') ∧
    fs w' !! (i // Path.name f) = Some (File c) ∧
    ∀ e, image_to_string L c = Raise e →
         w' = mk_world (<[i // Path.name f := File c]> (fs w))
                (stdout w ++ ["Warning: OCR failed for " +:+ Path.name f +:+ ": " +:+
                              exn_msg e]).
Proof.
  intros Hf Hi Hdst Hsrc Htext.
  assert (Path.is_dot (Path.name f) = false) as Hdot.
  { destruct (Path.is_dot (Path.name f)) eqn:E; [| done].
    by rewrite (join_dot _ _ E) in Hdst. }
  assert (is_dir (i // Path.name f) w = false) as Hnd.
  { unfold is_dir. by destruct (stat w (i // Path.name f)) as [[|]|]. }
  assert (copy2 f (i // Path.name f) w =
          (Ok tt, set_fs <[i // Path.name f := File c]> w)) as Hcopy.
  { unfold copy2. rewrite Hnd. rewrite bool_decide_eq_false_2 by done. simpl.
    unfold bind, read_file. rewrite Hf.
    apply write_file_run; [by apply join_nonempty | done | by apply check_parent_join]. }
  unfold _extract_image. unfold bind at 1. rewrite Hcopy.
  set (w1 := set_fs <[i // Path.name f := File c]> w).
  assert (stat w1 f = Some (File c)) as Hf1.
  { unfold w1. rewrite stat_insert_ne; [done | by apply not_eq_sym | by apply join_nonempty]. }
  unfold try_except, bind at 1, read_file. rewrite Hf1.
  unfold bind at 1, lift.
  destruct (image_to_string L c) as [text|e] eqn:Hocr.
  - destruct (Str.truthy (Str.strip text)).
    + destruct (write_file (t // "extracted_text.txt") (Bytes text) w1)
        as [[[]|e] w2] eqn:Hwrite.
      * eexists. split; [done |]. split; [| done].
        apply write_file_Ok in Hwrite as [-> _]. simpl.
        rewrite lookup_insert_ne by done. apply lookup_insert_eq.
      * apply write_file_Raise in Hwrite as ->.
        eexists. split; [reflexivity |]. split; [apply lookup_insert_eq | done].
    + eexists. split; [reflexivity |]. split; [apply lookup_insert_eq | done].
  - eexists. split; [reflexivity |]. split; [apply lookup_insert_eq |].
    by intros e' [= <-].
Qed.

Lemma image_is_copied_whatever_the_ocr_does_witness :
  let f := ["in"; "photo.png"] in
  let t := ["out"; "work"; "text"] in
  let i := ["out"; "work"; "images"] in
  let c := Bytes "PNG pixels" in
  ∃ w',
    _extract_image office_libs f t i office_world = (Ok tt, w') ∧
    fs w' !! (i // Path.name f) = Some (File c) ∧
    ∀ e, image_to_string office_libs c = Raise e →
         w' = mk_world (<[i // Path.name f := File c]> (fs office_world))
                (stdout office_world ++
                 ["Warning: OCR failed for " +:+ Path.name f +:+ ": " +:+ exn_msg e]).
Proof.
  apply (image_is_copied_whatever_the_ocr_does office_libs ["in"; "photo.png"]
           ["out"; "work"; "text"] ["out"; "work"; "images"] office_world
           (Bytes "PNG pixels")).
  - reflexivity.
  - reflexivity.
  - vm_compute. discriminate.
  - discriminate.
  - discriminate.
Defined.

(** ** The pages of a PDF as images *)

Lemma pdf_page_loop i images s w :
  stat w i = Some Dir →
  (∀ j, stat w (i // pdf_page_name j) ≠ Some Dir) →
  ∃ w',
    for_each (enumerate s images)
      (fun p => write_file (i // ("page_" +:+ Str.pad3 p.1 +:+ ".png")) p.2) w =
      (Ok tt, w') ∧
    (∀ k image, images !! k = Some image →
                fs w' !! (i // pdf_page_name (s + k)) = Some (File image)) ∧
    (∀ q, (∀ j, (s ≤ j)%nat → q ≠ i // pdf_page_name j) → fs w' !! q = fs w !! q) ∧
    stdout w' = stdout w.
Proof.
  revert s w. induction images as [|image rest IH]; intros s w Hi Hfree; simpl.
  - exists w. split; [done |]. split; [by intros k image H |]. done.
  - fold (pdf_page_name s).
    unfold bind at 1.
    rewrite write_file_run;
      [| by apply join_nonempty | apply Hfree | by apply check_parent_join].
    set (w1 := set_fs <[i // pdf_page_name s := File image]> w).
    destruct (IH (S s) w1) as (w' & Hrun & Hfiles & Hframe & Hout).
    { unfold w1. rewrite stat_insert_ne; [done | by apply join_ne | by apply join_nonempty]. }
    { intros j. unfold w1. destruct (decide (i // pdf_page_name s = i // pdf_page_name j))
        as [<-|Hne].
      - by rewrite stat_insert_eq by (by apply join_nonempty).
      - rewrite stat_insert_ne; [apply Hfree | done | by apply join_nonempty]. }
    exists w'. split; [exact Hrun |]. split; [| split; [| done]].
    + intros [|k] image' Hk; simpl in Hk.
      * injection Hk as <-. rewrite Nat.add_0_r, Hframe; [apply lookup_insert_eq |].
        intros j Hj Heq%join_inj; [| done | done]. apply pdf_page_name_inj in Heq. lia.
      * replace (s + S k)%nat with (S s + k)%nat by lia. by apply Hfiles.
    + intros q Hq. rewrite Hframe by (intros j Hj; apply Hq; lia).
      simpl. apply lookup_insert_ne. apply not_eq_sym, Hq. lia.
Qed.

(** The text part of the PDF handler, when it goes through: the world is
    as before, or the text file has been put. *)
Lemma pdf_text_part L f t w u w1 :
  (let* file := read_file f in
   let* pages := lift (pdf_pages_text L file) in
   let text_content := pdf_text_content pages in
   if nonempty text_content
   then write_file (t // "extracted_text.txt") (Bytes (Str.join text_content))
   else ret tt) w = (Ok u, w1) →
  w1 = w ∨
  (stat w (t // "extracted_text.txt") ≠ Some Dir ∧
   ∃ c, w1 = set_fs <[t // "extracted_text.txt" := File c]> w).
Proof.
  intros E.
  apply bind_inv_Ok in E as (file & wa & Hread & E).
  assert (wa = w) as ->.
  { unfold read_file in Hread. by destruct (stat w f) as [[c|]|]; injection Hread. }
  apply bind_inv_Ok in E as (pages & wb & Hlift & E).
  injection Hlift as _ <-.
  simpl in E. destruct (nonempty (pdf_text_content pages)); [| injection E as _ <-; by left].
  right. split.
  - intros Hd. unfold write_file in E. by rewrite Hd in E.
  - apply write_file_Ok in E as [-> _]. by eexists.
Qed.

Lemma pdf_text_part_keeps L f t w u w1 q :
  (let* file := read_file f in
   let* pages := lift (pdf_pages_text L file) in
   let text_content := pdf_text_content pages in
   if nonempty text_content
   then write_file (t // "extracted_text.txt") (Bytes (Str.join text_content))
   else ret tt) w = (Ok u, w1) →
  q ≠ t // "extracted_text.txt" → stat w1 q = stat w q.
Proof.
  intros E Hq. apply pdf_text_part in E as [->|(_ & c & ->)]; [done |].
  rewrite stat_insert_ne; [done | by apply not_eq_sym | by apply join_nonempty].
Qed.

(** X16. When the renderer gives the pages of a PDF and the images folder
    can take them, the handler stores the [k]-th page image, counted from
    1, as [page_NNN.png] with [NNN] the number padded to three digits, and
    the file holds the rendered image. *)
Theorem pdf_pages_are_numbered_images L f t i w file images u w' k image :
  stat w f = Some (File file) →
  f ≠ t // "extracted_text.txt" →
  convert_from_path L file = Ok images →
  stat w i = Some Dir →
  (∀ j, stat w (i // pdf_page_name j) ≠ Some Dir) →
  _extract_pdf L f t i w = (Ok u, w') →
  images !! k = Some image →
  fs w' !! (i // ("page_" +:+ Str.pad3 (S k) +:+ ".png")) = Some (File image).
Proof.
  intros Hf Hft Hconv Hi Hfree E Hk. unfold _extract_pdf in E.
  apply bind_inv_Ok in E as (u1 & w1 & Htext & E).
  pose proof (pdf_text_part _ _ _ _ _ _ Htext) as Hw1.
  assert (stat w1 f = Some (File file)) as Hf1
    by (by rewrite (pdf_text_part_keeps _ _ _ _ _ _ f Htext)).
  assert (stat w1 i = Some Dir) as Hi1.
  { destruct Hw1 as [->|(Hnd & c & ->)]; [done |].
    rewrite stat_insert_ne; [done | congruence | by apply join_nonempty]. }
  assert (∀ j, stat w1 (i // pdf_page_name j) ≠ Some Dir) as Hfree1.
  { intros j. destruct Hw1 as [->|(Hnd & c & ->)]; [apply Hfree |].
    destruct (decide (t // "extracted_text.txt" = i // pdf_page_name j)) as [->|Hne].
    - by rewrite stat_insert_eq by (by apply join_nonempty).
    - rewrite stat_insert_ne; [apply Hfree | done | by apply join_nonempty]. }
  destruct (pdf_page_loop i images 1 w1 Hi1 Hfree1) as (w2 & Hloop & Hfiles & _).
  unfold try_except, bind at 1, read_file in E. rewrite Hf1 in E.
  unfold bind at 1, lift in E. rewrite Hconv, Hloop in E.
  injection E as _ <-. by apply (Hfiles k image).
Qed.

(** X17. A failing renderer does not fail the PDF handler: when the
    renderer raises and the handler returns, the only trace is one warning
    line with the renderer's message, and apart from the text file the
    file system is as before. *)
Theorem pdf_rendering_failure_is_only_a_warning L f t i w file e u w' :
  stat w f = Some (File file) →
  f ≠ t // "extracted_text.txt" →
  convert_from_path L file = Raise e →
  _extract_pdf L f t i w = (Ok u, w') →
  stdout w' = stdout w ++ ["Warning: Could not extract images from PDF: " +:+ exn_msg e] ∧
  ∀ q, q ≠ t // "extracted_text.txt" → fs w' !! q = fs w !! q.
Proof.
  intros Hf Hft Hconv E. unfold _extract_pdf in E.
  apply bind_inv_Ok in E as (u1 & w1 & Htext & E).
  assert (stat w1 f = Some (File file)) as Hf1
    by (by rewrite (pdf_text_part_keeps _ _ _ _ _ _ f Htext)).
  unfold try_except, bind at 1, read_file in E. rewrite Hf1 in E.
  unfold bind at 1, lift in E. rewrite Hconv in E.
  unfold print in E. injection E as _ <-. simpl.
  apply pdf_text_part in Htext as [->|(_ & c & ->)]; split; try done.
  intros q Hq. simpl. by apply lookup_insert_ne, not_eq_sym.
Qed.

Lemma pdf_pages_are_numbered_images_witness :
  let run := _extract_pdf office_libs ["in"; "paper.pdf"]
               ["out"; "work"; "text"] ["out"; "work"; "images"] office_world in
  fs run.2 !! (["out"; "work"; "images"] // ("page_" +:+ Str.pad3 2 +:+ ".png")) =
    Some (File (Bytes "page two")).
Proof.
  intros run.
  assert (run.1 = Ok tt) as Hres by reflexivity.
  assert (map_Forall (fun (k : path) (_ : node) => (length k ≤ 3)%nat) (fs office_world))
    as Hshort by (apply (bool_decide_unpack _); vm_compute; exact I).
  apply (pdf_pages_are_numbered_images office_libs ["in"; "paper.pdf"]
           ["out"; "work"; "text"] ["out"; "work"; "images"] office_world
           (Bytes "pdf bytes") [Bytes "page one"; Bytes "page two"] tt run.2 1).
  - reflexivity.
  - discriminate.
  - reflexivity.
  - reflexivity.
  - intros j H. apply (map_Forall_lookup_1 _ _ _ _ Hshort) in H. simpl in H. lia.
  - revert Hres. unfold run. destruct (_extract_pdf _ _ _ _ _) as [r w']. simpl.
    by intros ->.
  - reflexivity.
Defined.

Lemma pdf_rendering_failure_is_only_a_warning_witness :
  let run := _extract_pdf sample_libs ["in"; "report.pdf"]
               ["out"; "bare"; "text"] ["out"; "bare"; "images"] sample_world in
  stdout run.2 =
    stdout sample_world ++
    ["Warning: Could not extract images from PDF: " +:+
     exn_msg (mk_exn LibraryError "Unable to get page count.")] ∧
  ∀ q, q ≠ ["out"; "bare"; "text"] // "extracted_text.txt" →
       fs run.2 !! q = fs sample_world !! q.
Proof.
  intros run.
  assert (run.1 = Ok tt) as Hres by reflexivity.
  apply (pdf_rendering_failure_is_only_a_warning sample_libs ["in"; "report.pdf"]
           ["out"; "bare"; "text"] ["out"; "bare"; "images"] sample_world
           (Bytes "three pages") (mk_exn LibraryError "Unable to get page count.") tt).
  - reflexivity.
  - discriminate.
  - reflexivity.
  - revert Hres. unfold run. destruct (_extract_pdf _ _ _ _ _) as [r w']. simpl.
    by intros ->.
Defined.

(** ** What the cleanup does not cover *)

Lemma mkdir_child_run p name w :
  Path.is_dot name = false →
  stat w p = Some Dir → stat w (p // name) = None →
  mkdir (p // name) false true w = (Ok tt, set_fs <[p // name := Dir]> w).
Proof.
  intros Hn Hp Hnone. unfold mkdir.
  assert (os_mkdir (p // name) w = (Ok tt, set_fs <[p // name := Dir]> w)) as E.
  { unfold os_mkdir. by rewrite Hnone, check_parent_join. }
  destruct (length (p // name)); simpl; by rewrite E.
Qed.

Lemma mkdir_on_file p parents w c :
  stat w p = Some (File c) → mkdir p parents true w = (Raise (EEXIST p), w).
Proof.
  intros H. unfold mkdir.
  assert (os_mkdir p w = (Raise (EEXIST p), w)) as E by (unfold os_mkdir; by rewrite H).
  destruct (length p); simpl; rewrite E; simpl; unfold is_dir; by rewrite H.
Qed.

(** X18. The folders are made outside the [try]: when the output folder
    is there, its [text] subfolder is not, and a file sits where [images]
    should be, [extract_content] raises the plain [FileExistsError] of
    [mkdir], not the wrapped extraction error, and removes nothing: the
    [text] subfolder it has just made stays behind. The message is the
    one of the operating system, with the path of [images] as [repr]
    writes it, when that path is made of ASCII characters. *)
Theorem failure_making_the_folders_is_not_cleaned_up L input out w c :
  plain (output_folder_of input out) →
  stat w input ≠ None →
  file_ext input ∈ recognized →
  stat w (output_folder_of input out) = Some Dir →
  stat w (output_folder_of input out // "text") = None →
  stat w (output_folder_of input out // "images") = Some (File c) →
  ∃ msg,
    extract_content L input out w =
      (Raise (mk_exn FileExistsError msg),
       set_fs <[output_folder_of input out // "text" := Dir]> w) ∧
    (Str.is_ascii (Path.str (output_folder_of input out // "images")) = true →
     msg = "[Errno 17] File exists: " +:+
           Str.repr (Path.str (output_folder_of input out // "images"))).
Proof.
  intros _ Hin Hext HO HT HI.
  destruct (recognized_has_handler L _ Hext) as [extract Hsel].
  exists (exn_msg (EEXIST (output_folder_of input out // "images"))).
  split; [| done].
  rewrite (extract_content_supported L input out w extract Hin Hsel).
  unfold make_folders.
  unfold bind at 1. unfold bind at 1. rewrite (mkdir_existing _ _ _ HO).
  unfold bind at 1. rewrite (mkdir_child_run _ "text" _ eq_refl HO HT).
  rewrite (mkdir_on_file _ false _ c); [done |].
  rewrite stat_insert_ne; [done | | by apply join_nonempty].
  intros H%join_inj; done.
Qed.

Lemma failure_making_the_folders_is_not_cleaned_up_witness :
  let input := ["in"; "report.pdf"] in
  let out := ["out"] in
  let w := set_fs (fun m => <[["out"; "report"; "images"] := File (Bytes "in the way")]>
                              (<[["out"; "report"] := Dir]> m)) sample_world in
  ∃ msg,
    extract_content sample_libs input out w =
      (Raise (mk_exn FileExistsError msg),
       set_fs <[output_folder_of input out // "text" := Dir]> w) ∧
    (Str.is_ascii (Path.str (output_folder_of input out // "images")) = true →
     msg = "[Errno 17] File exists: " +:+
           Str.repr (Path.str (output_folder_of input out // "images"))).
Proof.
  apply (failure_making_the_folders_is_not_cleaned_up sample_libs ["in"; "report.pdf"]
           ["out"] _ (Bytes "in the way")).
  - apply (bool_decide_unpack _). vm_compute. exact I.
  - vm_compute. discriminate.
  - apply (bool_decide_unpack _). vm_compute. exact I.
  - reflexivity.
  - reflexivity.
  - reflexivity.
Defined.

(** ** What a successful extraction keeps *)

Lemma made_dirs_files_kept p w w' : made_dirs p w w' → files_kept w w'.
Proof.
  intros H q c Hq. destruct (H q) as [E|(N & _)]; [| congruence].
  exists c. congruence.
Qed.

(** X19. A successful extraction removes no file: every file that was
    there before the run, inside the output folder or not, is still a file
    afterwards. What an earlier run left in a reused output folder stays
    there, beside what this run wrote. *)
Theorem successful_extraction_removes_no_file L input out w O w1 q c :
  extract_content L input out w = (Ok O, w1) →
  fs w !! q = Some (File c) →
  ∃ c', fs w1 !! q = Some (File c').
Proof.
  intros E Hq.
  apply extract_content_Ok_inv in E as (-> & _ & extract & wm & Hsel & Hmk & Hrun).
  assert (files_kept w wm) as Hk1.
  { unfold make_folders in Hmk.
    apply bind_inv_Ok in Hmk as ([] & wa & Ha & Hmk).
    apply bind_inv_Ok in Hmk as ([] & wb & Hb & Hc).
    transitivity wa; [| transitivity wb].
    - eapply made_dirs_files_kept, (made_dirs_mkdir_fuel _ _ _ _ _ (reflexivity _)), Ha.
    - eapply made_dirs_files_kept, (made_dirs_mkdir_fuel _ _ _ _ _ (reflexivity _)), Hb.
    - eapply made_dirs_files_kept, (made_dirs_mkdir_fuel _ _ _ _ _ (reflexivity _)), Hc. }
  assert (files_kept wm w1) as Hk2.
  { revert Hrun. apply (respects_handler L files_kept files_kept_stdout
                          (fun w p c _ => files_kept_put w p c) _ _ _ _ _ Hsel). }
  destruct (Hk1 q c Hq) as [c1 Hq1]. by apply (Hk2 q c1).
Qed.

Lemma successful_extraction_removes_no_file_witness :
  let w := set_fs <[["out"; "report"; "old.txt"] := File (Bytes "from an earlier run")]>
             (set_fs <[["out"; "report"] := Dir]> sample_world) in
  let run := extract_content sample_libs ["in"; "report.pdf"] ["out"] w in
  ∃ c', fs run.2 !! ["out"; "report"; "old.txt"] = Some (File c').
Proof.
  intros w run.
  assert (run.1 = Ok ["out"; "report"]) as Hres by reflexivity.
  apply (successful_extraction_removes_no_file sample_libs ["in"; "report.pdf"] ["out"] w
           ["out"; "report"] run.2 ["out"; "report"; "old.txt"]
           (Bytes "from an earlier run")).
  - revert Hres. unfold run. destruct (extract_content _ _ _ _) as [r w1]. simpl.
    by intros ->.
  - reflexivity.
Defined.

(** ** The pictures of a deck *)

Lemma to_list_inj s s' : Str.to_list s = Str.to_list s' → s = s'.
Proof. intros H. by rewrite <- (of_list_to_list s), H, of_list_to_list. Qed.

Lemma digits_no_underscore d : "_"%char ∉ Str.to_list (NilEmpty.string_of_uint d).
Proof.
  induction d; simpl; [apply not_elem_of_nil | ..];
    (apply not_elem_of_cons; split; [discriminate | done]).
Qed.

Lemma of_nat_no_underscore n : "_"%char ∉ Str.to_list (Str.of_nat n).
Proof.
  unfold Str.of_nat, NilZero.string_of_uint.
  destruct (Nat.to_uint n) eqn:E; rewrite <- ?E;
    [simpl; apply not_elem_of_cons; split; [discriminate | apply not_elem_of_nil] | ..];
    apply digits_no_underscore.
Qed.

(** The count is read off the name, whatever the slide. *)
Lemma pptx_image_name_inj n c n' c' :
  pptx_image_name n c = pptx_image_name n' c' → c = c'.
Proof.
  unfold pptx_image_name. intros H%append_inj_l.
  apply (f_equal Str.to_list) in H. rewrite !to_list_append in H.
  pose proof (of_nat_no_underscore n) as Hn.
  pose proof (of_nat_no_underscore n') as Hn'.
  set (A := Str.to_list (Str.of_nat n)) in *.
  set (A' := Str.to_list (Str.of_nat n')) in *.
  assert (Str.to_list "_image_" ++ Str.to_list (Str.pad3 c) ++ Str.to_list ".png" =
          Str.to_list "_image_" ++ Str.to_list (Str.pad3 c') ++ Str.to_list ".png") as Hrest.
  { apply List.app_eq_app in H as [l [[HA HR]|[HA HR]]].
    - destruct l as [|x l]; [by rewrite HR |].
      simpl in HR. injection HR as <- _. destruct Hn. rewrite HA.
      apply elem_of_app. right. apply list_elem_of_here.
    - destruct l as [|x l]; [by rewrite HR |].
      simpl in HR. injection HR as <- _. destruct Hn'. rewrite HA.
      apply elem_of_app. right. apply list_elem_of_here. }
  apply app_inv_head, app_inv_tail in Hrest.
  by apply to_list_inj, pad3_inj in Hrest.
Qed.

Lemma pptx_shape_images_Ok i n shapes c w c' w' :
  pptx_shape_images i n shapes c w = (Ok c', w') →
  c' = (c + length (slide_pictures n shapes))%nat ∧
  (∀ k m blob, slide_pictures n shapes !! k = Some (m, blob) →
               fs w' !! (i // pptx_image_name m (c + S k)) = Some (File blob)) ∧
  (∀ q, (∀ m j, (c < j)%nat → q ≠ i // pptx_image_name m j) → fs w' !! q = fs w !! q).
Proof.
  revert c w. induction shapes as [|shape rest IH]; intros c w; simpl.
  - intros [= <- <-]. split; [lia |]. split; [by intros k m blob H | done].
  - unfold slide_pictures. simpl. fold (slide_pictures n rest).
    destruct (shape_image shape) as [image_data|].
    + intros E. apply bind_inv_Ok in E as (u & w1 & Hwrite & E).
      apply write_file_Ok in Hwrite as [-> _].
      destruct (IH _ _ E) as (-> & Hfiles & Hframe).
      split; [simpl; lia |]. split.
      * intros [|k] m blob Hk; simpl in Hk.
        -- injection Hk as <- <-. rewrite Hframe.
           ++ simpl. replace (c + 1)%nat with (S c) by lia. apply lookup_insert_eq.
           ++ intros m j Hj [_ Heq]%app_inj_tail. apply pptx_image_name_inj in Heq. lia.
        -- replace (c + S (S k))%nat with (S c + S k)%nat by lia. by apply Hfiles.
      * intros q Hq. rewrite Hframe by (intros m j Hj; apply Hq; lia).
        simpl. apply lookup_insert_ne. apply not_eq_sym, Hq. lia.
    + intros E. destruct (IH _ _ E) as (-> & Hfiles & Hframe). by repeat split.
Qed.

Lemma pptx_images_Ok i slides c w u w' :
  pptx_images i slides c w = (Ok u, w') →
  (∀ k m blob, deck_pictures slides !! k = Some (m, blob) →
               fs w' !! (i // pptx_image_name m (c + S k)) = Some (File blob)) ∧
  (∀ q, (∀ m j, (c < j)%nat → q ≠ i // pptx_image_name m j) → fs w' !! q = fs w !! q).
Proof.
  revert c w. induction slides as [|[n shapes] rest IH]; intros c w; simpl.
  - intros [= _ <-]. split; [by intros k m blob H | done].
  - intros E. apply bind_inv_Ok in E as (c1 & w1 & Hslide & E).
    apply pptx_shape_images_Ok in Hslide as (-> & Hfiles1 & Hframe1).
    destruct (IH _ _ E) as (Hfiles & Hframe). split.
    + intros k m blob Hk. unfold deck_pictures in Hk. simpl in Hk.
      fold (deck_pictures rest) in Hk.
      destruct (decide (k < length (slide_pictures n shapes))%nat) as [Hlt|Hge].
      * rewrite lookup_app_l in Hk by done.
        rewrite Hframe; [by apply Hfiles1 |].
        intros m' j Hj [_ Heq]%app_inj_tail. apply pptx_image_name_inj in Heq. lia.
      * rewrite lookup_app_r in Hk by lia.
        apply Hfiles in Hk.
        by replace (c + length (slide_pictures n shapes) +
                    S (k - length (slide_pictures n shapes)))%nat
          with (c + S k)%nat in Hk by lia.
    + intros q Hq. rewrite Hframe by (intros m j Hj; apply Hq; lia).
      apply Hframe1. intros m j Hj. by apply Hq.
Qed.

(** X20. When the PPTX handler returns, the [k]-th picture of the deck,
    counting from 1 through the slides in order, is stored in the images
    folder as [slide_N_image_KKK.png], [N] being the number of its slide
    and [KKK] the count padded to three digits: the count runs on from
    slide to slide, and the file holds the picture's bytes. *)
Theorem pptx_pictures_are_counted_across_slides L f t i w file slides u w' k n blob :
  stat w f = Some (File file) →
  Presentation L file = Ok slides →
  _extract_pptx L f t i w = (Ok u, w') →
  deck_pictures (enumerate 1 slides) !! k = Some (n, blob) →
  fs w' !! (i // ("slide_" +:+ Str.of_nat n +:+ "_image_" +:+ Str.pad3 (S k) +:+ ".png")) =
    Some (File blob).
Proof.
  intros Hfile Hprs E Hk. unfold _extract_pptx in E.
  unfold bind at 1, read_file in E. rewrite Hfile in E.
  unfold bind at 1, lift in E. rewrite Hprs in E.
  apply bind_inv_Ok in E as (u1 & w1 & _ & Himages).
  apply pptx_images_Ok in Himages as [Hfiles _].
  by apply (Hfiles k n blob).
Qed.

Lemma pptx_pictures_are_counted_across_slides_witness :
  let run := _extract_pptx office_libs ["in"; "deck.pptx"]
               ["out"; "work"; "text"] ["out"; "work"; "images"] office_world in
  fs run.2 !! (["out"; "work"; "images"] //
               ("slide_" +:+ Str.of_nat 2 +:+ "_image_" +:+ Str.pad3 2 +:+ ".png")) =
    Some (File (Bytes "chart")).
Proof.
  intros run.
  assert (run.1 = Ok tt) as Hres by reflexivity.
  apply (pptx_pictures_are_counted_across_slides office_libs ["in"; "deck.pptx"]
           ["out"; "work"; "text"] ["out"; "work"; "images"] office_world
           (Bytes "pptx bytes") office_deck tt run.2 1 2 (Bytes "chart")).
  - reflexivity.
  - reflexivity.
  - revert Hres. unfold run. destruct (_extract_pptx _ _ _ _ _) as [r w']. simpl.
    by intros ->.
  - reflexivity.
Defined.

(** ** The failure of the second pass *)


